(** * KIO: the stat job and the worker-side session, embedded in Rocq

    The development follows [src/core/statjob.cpp] function by function and
    [src/core/slavebase.h] for the worker-side interface.  Qt value types and
    KIO helpers that live outside these two files are gathered in one
    interface ([KioEnv]) so that every statement about the job holds for any
    implementation of them. *)

From Stdlib Require Import ZArith Lia Bool.
From stdpp Require Import base gmap strings list pretty.

Local Open Scope Z_scope.

(** ** Qt value types *)

(** [QString] is [string]; [QByteArray] is a list of bytes; [KIO::MetaData]
    is a [QMap<QString, QString>], i.e. a finite map with unique keys. *)
Definition QByteArray := list Byte.byte.

(** Everything the stat job calls but does not define: [QUrl] and its
    accessors, [QDataStream << QUrl] (as [streamUrl]),
    [KUrlAuthorized::authorizeUrlAction], [UDSEntry] with [stringValue], the
    enumerators [UDS_LOCAL_PATH], [ERR_ACCESS_DENIED], [CMD_STAT] and
    [StatDefaultDetails], and, for the re-arming done by the base class, the
    implementation-defined redirection-chain limit and the error code of a
    detected redirection loop. *)
Class KioEnv := {
  QUrl : Type;
  QUrl_null : QUrl;
  isEmpty : QUrl -> bool;
  isValid : QUrl -> bool;
  isLocalFile : QUrl -> bool;
  fromLocalFile : string -> QUrl;
  toDisplayString : QUrl -> string;
  streamUrl : QUrl -> QByteArray;
  authorizeUrlAction : string -> QUrl -> QUrl -> bool;
  UDSEntry : Type;
  UDSEntry_null : UDSEntry;
  stringValue : UDSEntry -> Z -> string;
  UDS_LOCAL_PATH : Z;
  ERR_ACCESS_DENIED : Z;
  CMD_STAT : Z;
  StatDefaultDetails : Z;
  ERR_CYCLIC_LINK : Z;
  redirectionLimit : nat;
  (* a default-constructed QUrl is empty *)
  QUrl_null_isEmpty : isEmpty QUrl_null = true
}.

(** ** The StatDetail flags and the legacy conversion *)

(** The [StatDetail] enumerators are declared in [global.h]; each is a single
    bit.  The bit positions are kept as parameters. *)
Class StatDetailBits := {
  bitBasic : Z;
  bitUser : Z;
  bitTime : Z;
  bitResolveSymlink : Z;
  bitAcl : Z;
  bitInode : Z
}.

Module Details.
Section Flags.
Context {bits : StatDetailBits}.

Definition StatBasic : Z := Z.shiftl 1 bitBasic.
Definition StatUser : Z := Z.shiftl 1 bitUser.
Definition StatTime : Z := Z.shiftl 1 bitTime.
Definition StatResolveSymlink : Z := Z.shiftl 1 bitResolveSymlink.
Definition StatAcl : Z := Z.shiftl 1 bitAcl.
Definition StatInode : Z := Z.shiftl 1 bitInode.

(** [KIO::detailsToStatDetails(int details)], statjob.cpp:107-120. *)
Definition detailsToStatDetails (details : Z) : Z :=
  let detailsFlag := StatBasic in
  let detailsFlag :=
    if 0 <? details then Z.lor detailsFlag (Z.lor StatUser StatTime)
    else detailsFlag in
  let detailsFlag :=
    if 1 <? details then Z.lor detailsFlag (Z.lor StatResolveSymlink StatAcl)
    else detailsFlag in
  let detailsFlag :=
    if 2 <? details then Z.lor detailsFlag StatInode else detailsFlag in
  detailsFlag.

(** [QFlags::testFlag]: every bit of [flag] is set in [flags]. *)
Definition testFlag (flags flag : Z) : bool := Z.land flags flag =? flag.

(** [a] is a subset of [b] as a set of flags. *)
Definition subflags (a b : Z) : Prop := Z.land a b = a.

(** The six enumerators occupy six different, non-negative bit positions. *)
Definition distinct_bits : Prop :=
  NoDup [bitBasic; bitUser; bitTime; bitResolveSymlink; bitAcl; bitInode]
  /\ Forall (fun b => 0 <= b)
       [bitBasic; bitUser; bitTime; bitResolveSymlink; bitAcl; bitInode].

End Flags.

(** The positions used by KIO: 0x1, 0x2, 0x4, 0x8, 0x10, 0x20. *)
Definition kio_bits : StatDetailBits :=
  {| bitBasic := 0; bitUser := 1; bitTime := 2;
     bitResolveSymlink := 3; bitAcl := 4; bitInode := 5 |}.

End Details.

(** ** The stat job (statjob.cpp) *)

Module StatJob.
Section Job.
Context {env : KioEnv}.

(** [StatJob::StatSide]. *)
Inductive StatSide := SourceSide | DestinationSide.

Definition StatSide_eqb (a b : StatSide) : bool :=
  match a, b with
  | SourceSide, SourceSide | DestinationSide, DestinationSide => true
  | _, _ => false
  end.

(** The members the job reads and writes, grouped by the class that declares
    them: [KJob] (error, errorText), [JobPrivate] (the two metadata maps),
    [SimpleJobPrivate] (m_url, m_command, m_packedArgs,
    m_redirectionHandlingEnabled) and [StatJobPrivate] (statjob.cpp:39-42).
    [m_redirectionHops] is modelled from the spec: the number of redirections
    followed so far, which the base class needs for the redirection-chain
    limit; [StatJobPrivate] itself declares no such member. *)
Record StatJob := mkStatJob {
  error : Z;
  errorText : string;
  m_outgoingMetaData : gmap string string;
  m_incomingMetaData : gmap string string;
  m_url : QUrl;
  m_command : Z;
  m_packedArgs : QByteArray;
  m_redirectionHandlingEnabled : bool;
  m_statResult : UDSEntry;
  m_redirectionURL : QUrl;
  m_bSource : bool;
  m_details : Z;
  m_redirectionHops : nat
}.

(** Member assignments. *)
Definition setError (e : Z) (j : StatJob) : StatJob :=
  mkStatJob e (errorText j) (m_outgoingMetaData j) (m_incomingMetaData j)
    (m_url j) (m_command j) (m_packedArgs j) (m_redirectionHandlingEnabled j)
    (m_statResult j) (m_redirectionURL j) (m_bSource j) (m_details j)
    (m_redirectionHops j).

Definition setErrorText (t : string) (j : StatJob) : StatJob :=
  mkStatJob (error j) t (m_outgoingMetaData j) (m_incomingMetaData j)
    (m_url j) (m_command j) (m_packedArgs j) (m_redirectionHandlingEnabled j)
    (m_statResult j) (m_redirectionURL j) (m_bSource j) (m_details j)
    (m_redirectionHops j).

Definition set_outgoingMetaData (m : gmap string string) (j : StatJob) : StatJob :=
  mkStatJob (error j) (errorText j) m (m_incomingMetaData j)
    (m_url j) (m_command j) (m_packedArgs j) (m_redirectionHandlingEnabled j)
    (m_statResult j) (m_redirectionURL j) (m_bSource j) (m_details j)
    (m_redirectionHops j).

Definition set_url (u : QUrl) (j : StatJob) : StatJob :=
  mkStatJob (error j) (errorText j) (m_outgoingMetaData j) (m_incomingMetaData j)
    u (m_command j) (m_packedArgs j) (m_redirectionHandlingEnabled j)
    (m_statResult j) (m_redirectionURL j) (m_bSource j) (m_details j)
    (m_redirectionHops j).

Definition set_packedArgs (a : QByteArray) (j : StatJob) : StatJob :=
  mkStatJob (error j) (errorText j) (m_outgoingMetaData j) (m_incomingMetaData j)
    (m_url j) (m_command j) a (m_redirectionHandlingEnabled j)
    (m_statResult j) (m_redirectionURL j) (m_bSource j) (m_details j)
    (m_redirectionHops j).

Definition set_statResult (e : UDSEntry) (j : StatJob) : StatJob :=
  mkStatJob (error j) (errorText j) (m_outgoingMetaData j) (m_incomingMetaData j)
    (m_url j) (m_command j) (m_packedArgs j) (m_redirectionHandlingEnabled j)
    e (m_redirectionURL j) (m_bSource j) (m_details j)
    (m_redirectionHops j).

Definition set_redirectionURL (u : QUrl) (j : StatJob) : StatJob :=
  mkStatJob (error j) (errorText j) (m_outgoingMetaData j) (m_incomingMetaData j)
    (m_url j) (m_command j) (m_packedArgs j) (m_redirectionHandlingEnabled j)
    (m_statResult j) u (m_bSource j) (m_details j)
    (m_redirectionHops j).

Definition set_bSource (b : bool) (j : StatJob) : StatJob :=
  mkStatJob (error j) (errorText j) (m_outgoingMetaData j) (m_incomingMetaData j)
    (m_url j) (m_command j) (m_packedArgs j) (m_redirectionHandlingEnabled j)
    (m_statResult j) (m_redirectionURL j) b (m_details j)
    (m_redirectionHops j).

Definition set_details (d : Z) (j : StatJob) : StatJob :=
  mkStatJob (error j) (errorText j) (m_outgoingMetaData j) (m_incomingMetaData j)
    (m_url j) (m_command j) (m_packedArgs j) (m_redirectionHandlingEnabled j)
    (m_statResult j) (m_redirectionURL j) (m_bSource j) d
    (m_redirectionHops j).

Definition set_redirectionHops (n : nat) (j : StatJob) : StatJob :=
  mkStatJob (error j) (errorText j) (m_outgoingMetaData j) (m_incomingMetaData j)
    (m_url j) (m_command j) (m_packedArgs j) (m_redirectionHandlingEnabled j)
    (m_statResult j) (m_redirectionURL j) (m_bSource j) (m_details j) n.

(** What a member function does besides updating the job: the signals it
    emits, the frames it sends to the worker, and the hand-over to the
    scheduler or to the caller. *)
Inductive Action :=
| emit_redirection (url : QUrl)
| emit_permanentRedirection (fromUrl toUrl : QUrl)
| send_metaData (meta : gmap string string)
| send_command (cmd : Z) (packedArgs : QByteArray)
| rescheduled
| emit_result.

Definition is_rescheduled (a : Action) : bool :=
  match a with rescheduled => true | _ => false end.

(** [StatJobPrivate::StatJobPrivate], statjob.cpp:35-37, on top of the
    base-class constructor. *)
(** Modelled from the spec: [SimpleJobPrivate]'s constructor (job_p.h is not
    among the sources) stores the target URL, the command and the serialized
    argument payload; a new job has no error, empty metadata, no stat result
    and no redirection URL, has followed no redirection, and redirection
    handling is enabled. *)
Definition StatJobPrivate_new (url : QUrl) (command : Z) (packedArgs : QByteArray)
  : StatJob :=
  {| error := 0; errorText := "";
     m_outgoingMetaData := ∅; m_incomingMetaData := ∅;
     m_url := url; m_command := command; m_packedArgs := packedArgs;
     m_redirectionHandlingEnabled := true;
     m_statResult := UDSEntry_null; m_redirectionURL := QUrl_null;
     m_bSource := true; m_details := StatDefaultDetails;
     m_redirectionHops := 0 |}.

(** [StatJob::setSide(StatSide)], statjob.cpp:85-88. *)
Definition setSide (side : StatSide) (j : StatJob) : StatJob :=
  set_bSource (StatSide_eqb side SourceSide) j.

(** [StatJob::setDetails(KIO::StatDetails)], statjob.cpp:90-93. *)
Definition setDetails (details : Z) (j : StatJob) : StatJob :=
  set_details details j.

(** [StatJob::statResult], statjob.cpp:123-126. *)
Definition statResult (j : StatJob) : UDSEntry := m_statResult j.

(** [StatJob::mostLocalUrl], statjob.cpp:128-140. *)
Definition mostLocalUrl (j : StatJob) : QUrl :=
  let _url := m_url j in
  if isLocalFile _url then _url
  else
    let udsEntry := m_statResult j in
    let path := stringValue udsEntry UDS_LOCAL_PATH in
    if negb (String.eqb path "") then fromLocalFile path else _url.

(** Modelled from the spec: [SimpleJobPrivate::start] (job.cpp is not among
    the sources).  On Queued->Active the job sends its outgoing metadata and
    then the initial command with the serialized arguments. *)
Definition SimpleJobPrivate_start (j : StatJob) : list Action :=
  [send_metaData (m_outgoingMetaData j);
   send_command (m_command j) (m_packedArgs j)].

(** [StatJobPrivate::start], statjob.cpp:142-154.  [QString::number] of the
    flags is their decimal rendering. *)
Definition start (j : StatJob) : StatJob * list Action :=
  let j := set_outgoingMetaData
             (<["statSide" := if m_bSource j then "source" else "dest"]>
                (m_outgoingMetaData j)) j in
  let j := set_outgoingMetaData
             (<["statDetails" := pretty (m_details j)]>
                (m_outgoingMetaData j)) j in
  (j, SimpleJobPrivate_start j).

(** [StatJobPrivate::slotStatEntry], statjob.cpp:156-160. *)
Definition slotStatEntry (entry : UDSEntry) (j : StatJob) : StatJob :=
  set_statResult entry j.

(** [StatJobPrivate::slotRedirection], statjob.cpp:163-176. *)
Definition slotRedirection (url : QUrl) (j : StatJob) : StatJob * list Action :=
  if negb (authorizeUrlAction "redirect" (m_url j) url) then
    let j := setError ERR_ACCESS_DENIED j in
    let j := setErrorText (toDisplayString url) j in
    (j, [])
  else
    let j := set_redirectionURL url j in
    (j, [emit_redirection (m_redirectionURL j)]).

(** [Job::queryMetaData]: the value received for [key], or the empty string. *)
Definition queryMetaData (key : string) (j : StatJob) : string :=
  default "" (m_incomingMetaData j !! key).

(** Modelled from the spec: [SimpleJobPrivate::restartAfterRedirection]
    (job.cpp is not among the sources).  The job re-arms itself against the
    redirection URL, which [slotFinished] hands over by pointer: that URL
    becomes the job's URL, the recorded URL is consumed, and the job goes
    back to the scheduler's queue; this is done up to the redirection-chain
    limit.  A job that has already followed as many redirections as the
    limit allows is not re-armed: it fails with the loop-detection error and
    surfaces its result. *)
Definition restartAfterRedirection (j : StatJob) : StatJob * list Action :=
  if (m_redirectionHops j <? redirectionLimit)%nat then
    let j := set_url (m_redirectionURL j) j in
    let j := set_redirectionURL QUrl_null j in
    let j := set_redirectionHops (S (m_redirectionHops j)) j in
    (j, [rescheduled])
  else
    let j := setError ERR_CYCLIC_LINK j in
    (j, [emit_result]).

(** Modelled from the spec: [SimpleJob::slotFinished] (job.cpp is not among
    the sources).  The worker is returned to the scheduler and the job
    reaches its terminal state, surfacing what it accumulated. *)
Definition SimpleJob_slotFinished (j : StatJob) : StatJob * list Action :=
  (j, [emit_result]).

(** [StatJob::slotFinished], statjob.cpp:178-200. *)
Definition slotFinished (j : StatJob) : StatJob * list Action :=
  if negb (isEmpty (m_redirectionURL j)) && isValid (m_redirectionURL j) then
    let sig :=
      if String.eqb (queryMetaData "permanent-redirect" j) "true"
      then [emit_permanentRedirection (m_url j) (m_redirectionURL j)]
      else [] in
    if m_redirectionHandlingEnabled j then
      let j := set_packedArgs [] j in
      let j := set_packedArgs (m_packedArgs j ++ streamUrl (m_redirectionURL j)) j in
      let '(j, acts) := restartAfterRedirection j in
      (j, sig ++ acts)
    else
      let '(j, acts) := SimpleJob_slotFinished j in
      (j, sig ++ acts)
  else SimpleJob_slotFinished j.

(** [KIO::statDetails], statjob.cpp:237-246 ([KIO_ARGS << url] is
    [streamUrl url]; the job tracker registration is a UI matter and is left
    out). *)
Definition statDetails (url : QUrl) (side : StatSide) (details : Z) : StatJob :=
  let packedArgs := streamUrl url in
  let job := StatJobPrivate_new url CMD_STAT packedArgs in
  let job := setSide side job in
  let job := setDetails details job in
  job.

(** *** Event consumption *)

(** The events of the worker that a stat job reacts to. *)
Inductive Event :=
| EvStatEntry (entry : UDSEntry)
| EvRedirection (url : QUrl)
| EvFinished.

(** Where the job stands after an event. *)
Inductive Step :=
| Active (j : StatJob) (acts : list Action)
| Requeued (j : StatJob) (acts : list Action)
| Terminated (j : StatJob) (acts : list Action).

(** The signal-slot connections made in [start], and [slotFinished] for the
    worker's Finished: one event, one slot. *)
Definition dispatch (ev : Event) (j : StatJob) : Step :=
  match ev with
  | EvStatEntry entry => Active (slotStatEntry entry j) []
  | EvRedirection url => let '(j, acts) := slotRedirection url j in Active j acts
  | EvFinished =>
      let '(j, acts) := slotFinished j in
      if existsb is_rescheduled acts then Requeued j acts
      else Terminated j acts
  end.

(** One run on one worker: events are consumed in emission order until one
    of them ends the run. *)
Fixpoint consume (evs : list Event) (j : StatJob) : Step :=
  match evs with
  | [] => Active j []
  | ev :: rest =>
      match dispatch ev j with
      | Active j' _ => consume rest j'
      | s => s
      end
  end.

(** The outcome of driving a job through successive runs. *)
Inductive RunResult :=
| OutOfFuel
| Stalled (j : StatJob)
| Completed (j : StatJob) (hops : nat).

(** The scheduler loop: start the job on a worker, feed it the events of that
    run, and start over when the job asked to be rescheduled.  [worker n] is
    what the worker of the [n]-th run emits; [fuel] bounds the number of
    runs. *)
Fixpoint runJob (fuel : nat) (hops : nat) (worker : nat -> list Event)
  (j : StatJob) : RunResult :=
  match fuel with
  | O => OutOfFuel
  | S fuel' =>
      match consume (worker hops) (fst (start j)) with
      | Requeued j' _ => runJob fuel' (S hops) worker j'
      | Terminated j' _ => Completed j' hops
      | Active j' _ => Stalled j'
      end
  end.

(** The job a step leaves behind. *)
Definition jobOf (s : Step) : StatJob :=
  match s with Active j _ | Requeued j _ | Terminated j _ => j end.

Definition isStatEntry (ev : Event) : bool :=
  match ev with EvStatEntry _ => true | _ => false end.

Definition isFinished (ev : Event) : bool :=
  match ev with EvFinished => true | _ => false end.

(** A chain of redirections: the worker of run [n] redirects to the [n]-th
    URL of the chain; past the end of the chain the worker answers with the
    stat entry. *)
Definition chainWorker (urls : list QUrl) (entry : UDSEntry) (n : nat)
  : list Event :=
  match urls !! n with
  | Some u => [EvRedirection u; EvFinished]
  | None => [EvStatEntry entry; EvFinished]
  end.

(** Every hop of the chain is a non-empty, valid URL that the authorization
    check accepts as a redirection from the previous target. *)
Fixpoint followable (fromUrl : QUrl) (urls : list QUrl) : bool :=
  match urls with
  | [] => true
  | u :: rest =>
      authorizeUrlAction "redirect" fromUrl u
      && negb (isEmpty u) && isValid u && followable u rest
  end.

(** A worker that redirects on every run. *)
Definition redirectingWorker (u : QUrl) (n : nat) : list Event :=
  [EvRedirection u; EvFinished].

End Job.
End StatJob.

(** ** A concrete environment

    URLs as scheme, host and path; stat entries as their string fields in
    order; the authorization policy refuses redirections from a remote URL to
    a local file.  Used to run the job on concrete inputs. *)

Module Sample.

Record Url := mkUrl { scheme : string; host : string; path : string }.

Definition url_isEmpty (u : Url) : bool :=
  String.eqb (scheme u) "" && String.eqb (host u) "" && String.eqb (path u) "".

Definition url_isLocalFile (u : Url) : bool := String.eqb (scheme u) "file".

Definition url_display (u : Url) : string :=
  if url_isEmpty u then "" else scheme u +:+ "://" +:+ host u +:+ path u.

Definition authorize (action : string) (fromUrl toUrl : Url) : bool :=
  if String.eqb action "redirect"
  then url_isLocalFile fromUrl || negb (url_isLocalFile toUrl)
  else true.

Definition Entry := list (Z * string).

Fixpoint entry_stringValue (e : Entry) (field : Z) : string :=
  match e with
  | [] => ""
  | (f, s) :: rest => if f =? field then s else entry_stringValue rest field
  end.

Definition sample_env : KioEnv :=
  {| QUrl := Url;
     QUrl_null := mkUrl "" "" "";
     isEmpty := url_isEmpty;
     isValid := fun u => negb (url_isEmpty u);
     isLocalFile := url_isLocalFile;
     fromLocalFile := fun p => mkUrl "file" "" p;
     toDisplayString := url_display;
     streamUrl := fun u => String.list_byte_of_string (url_display u);
     authorizeUrlAction := authorize;
     UDSEntry := Entry;
     UDSEntry_null := [];
     stringValue := entry_stringValue;
     UDS_LOCAL_PATH := Z.lor 7 0x01000000;
     ERR_ACCESS_DENIED := 115;
     CMD_STAT := 69;
     StatDefaultDetails := 31;
     ERR_CYCLIC_LINK := 119;
     redirectionLimit := 5;
     QUrl_null_isEmpty := eq_refl |}.

Definition remote1 : Url := mkUrl "proto" "host" "/file".
Definition remote2 : Url := mkUrl "proto" "host2" "/file".
Definition secret : Url := mkUrl "file" "" "/etc/secret".

(** Stat entries: a name only (field 6), and a name with a local path (field
    7 of string type). *)
Definition named : Entry := [(6, "file")].
Definition located : Entry := [(6, "file"); (16777223, "/mnt/file")].

(** A stat job on [remote1], as [KIO::statDetails] creates it. *)
Definition job1 : @StatJob.StatJob sample_env :=
  @StatJob.statDetails sample_env remote1 StatJob.SourceSide 1.

End Sample.

(** ** The worker side (slavebase.h)

    The header declares the worker's interface; its implementation is not
    among the sources.  The three parts below follow the documentation in the
    header and the design document, one part per concern: the events of one
    operation, the outgoing metadata, and the timeout special command. *)

Module SlaveBase.

(** The closed error taxonomy of the design document. *)
Inductive ErrorCode :=
| ConnectionBroken | AccessDenied | DoesNotExist | AlreadyExists
| UnsupportedAction | UserCanceled | InternalError | SlaveDefined.

(** The outbound frames from worker to application. *)
Inductive Event :=
| Data (bytes : QByteArray)
| DataRequest
| Connected
| Error (code : ErrorCode) (text : string)
| Finished
| StatEntry (entry : QByteArray)
| ListEntries (entries : QByteArray)
| TotalSize (n : Z)
| ProcessedSize (n : Z)
| Redirection (url : string)
| MimeType (type : string)
| Warning (text : string)
| InfoMessage (text : string)
| MessageBoxRequest (payload : QByteArray)
| CanResume (offset : Z)
| Metadata (meta : gmap string string).

Definition is_terminal (e : Event) : bool :=
  match e with
  | Error _ _ | Finished => true
  | _ => false
  end.

(** *** One operation and its events *)

Inductive Phase := Executing | Terminated | Aborted.

Record Operation := mkOperation {
  phase : Phase;
  delivered : list Event
}.

(** Modelled from the spec: the worker's [send] in slavebase.cpp (absent)
    together with the channel's rule for one operation.  While the operation
    executes an event is delivered, and Finished or Error terminates the
    operation; an event emitted after either is a protocol violation: it is
    not delivered and the channel is aborted. *)
Definition send (e : Event) (o : Operation) : Operation :=
  match phase o with
  | Executing =>
      {| phase := if is_terminal e then Terminated else Executing;
         delivered := delivered o ++ [e] |}
  | Terminated | Aborted =>
      {| phase := Aborted; delivered := delivered o |}
  end.

(** Modelled from the spec: [SlaveBase::error] (slavebase.h:92-120) signals an
    error, which also finishes the job. *)
Definition error (code : ErrorCode) (text : string) (o : Operation) : Operation :=
  send (Error code text) o.

(** Modelled from the spec: [SlaveBase::finished] (slavebase.h:127-132)
    signals successful completion. *)
Definition finished (o : Operation) : Operation := send Finished o.

Definition newOperation : Operation :=
  {| phase := Executing; delivered := [] |}.

(** The events an operation body emits, in order, before it returns. *)
Definition emitAll (body : list Event) (o : Operation) : Operation :=
  foldl (fun o e => send e o) o body.

(** Modelled from the spec: the Executing state of the dispatch loop
    (slavebase.cpp, absent).  The operation runs to completion; returning
    without Finished or Error is a contract violation that the loop treats
    as Error(InternalError). *)
Definition runOperation (body : list Event) : Operation :=
  let o := emitAll body newOperation in
  match phase o with
  | Executing => error InternalError "" o
  | Terminated | Aborted => o
  end.

(** The number of terminal events in a trace. *)
Definition terminals (tr : list Event) : nat :=
  length (List.filter is_terminal tr).

(** What every reachable operation satisfies: while it executes no terminal
    event has been delivered; afterwards the delivered trace ends with its
    only terminal event. *)
Definition well_formed (o : Operation) : Prop :=
  match phase o with
  | Executing => terminals (delivered o) = 0%nat
  | Terminated | Aborted =>
      exists pre t,
        delivered o = pre ++ [t] /\ is_terminal t = true
        /\ terminals pre = 0%nat
  end.

(** *** Outgoing metadata *)

Record Session := mkSession {
  mOutgoingMetaData : gmap string string;
  mIncomingMetaData : gmap string string;
  sent : list Event
}.

(** Modelled from the spec: [SlaveBase::setMetaData] (slavebase.h:317-321)
    accumulates one entry of outgoing metadata. *)
Definition setMetaData (key value : string) (s : Session) : Session :=
  {| mOutgoingMetaData := <[key := value]> (mOutgoingMetaData s);
     mIncomingMetaData := mIncomingMetaData s;
     sent := sent s |}.

(** Modelled from the spec: [SlaveBase::sendAndKeepMetaData]
    (slavebase.h:974-980) transmits the outgoing metadata and keeps it. *)
Definition sendAndKeepMetaData (s : Session) : Session :=
  {| mOutgoingMetaData := mOutgoingMetaData s;
     mIncomingMetaData := mIncomingMetaData s;
     sent := sent s ++ [Metadata (mOutgoingMetaData s)] |}.

(** Modelled from the spec: [SlaveBase::sendMetaData] (slavebase.h:960-972)
    transmits the outgoing metadata like [sendAndKeepMetaData] and then
    clears it. *)
Definition sendMetaData (s : Session) : Session :=
  let s := sendAndKeepMetaData s in
  {| mOutgoingMetaData := ∅;
     mIncomingMetaData := mIncomingMetaData s;
     sent := sent s |}.

(** The metadata a job's operation sets, entry by entry. *)
Definition setAll (kvs : list (string * string)) (s : Session) : Session :=
  foldl (fun s kv => setMetaData kv.1 kv.2 s) s kvs.

(** The entries added to a map, in order; and the map built from the entries
    alone. *)
Definition addAll (kvs : list (string * string)) (m : gmap string string)
  : gmap string string :=
  foldl (fun m kv => <[kv.1 := kv.2]> m) m kvs.

Definition mapOf (kvs : list (string * string)) : gmap string string :=
  addAll kvs ∅.

(** *** The timeout special command *)

Inductive Opcode :=
| STAT | GET | PUT | LISTDIR | MKDIR | RENAME | SPECIAL | META_DATA | CONFIG.

Definition Command : Type := Opcode * QByteArray.

Inductive LoopState := ReadingCommand | ExecutingCommand.

(** The dispatch loop: where it stands, the armed timeout (seconds left and
    the payload for [special]), and the operations invoked so far. *)
Record Loop := mkLoop {
  loopState : LoopState;
  pending : option (Z * QByteArray);
  calls : list Command
}.

(** Modelled from the spec: [SlaveBase::setTimeoutSpecialCommand]
    (slavebase.h:709-722).  A negative timeout cancels; any other value arms
    the single timeout slot, replacing what was pending. *)
Definition setTimeoutSpecialCommand (timeout : Z) (data : QByteArray) (l : Loop)
  : Loop :=
  {| loopState := loopState l;
     pending := if timeout <? 0 then None else Some (timeout, data);
     calls := calls l |}.

(** What the loop observes: [secs] seconds pass without a command, a command
    is read, or the running operation returns. *)
Inductive Input :=
| Elapsed (secs : Z)
| Incoming (cmd : Command)
| Returned.

(** Modelled from the spec: [SlaveBase::dispatchLoop] (slavebase.cpp, absent).
    While reading, an expired timeout is disarmed and [special(data)] is
    invoked as if the application had sent it, and the loop goes on waiting;
    a command that is read is dispatched.  While an operation executes no
    timeout occurs and no command is read. *)
Definition step (i : Input) (l : Loop) : Loop :=
  match loopState l, i with
  | ReadingCommand, Elapsed secs =>
      match pending l with
      | Some (remaining, data) =>
          if remaining <=? secs then
            {| loopState := ReadingCommand; pending := None;
               calls := calls l ++ [(SPECIAL, data)] |}
          else
            {| loopState := ReadingCommand; pending := Some (remaining - secs, data);
               calls := calls l |}
      | None => l
      end
  | ReadingCommand, Incoming cmd =>
      {| loopState := ExecutingCommand; pending := pending l;
         calls := calls l ++ [cmd] |}
  | ReadingCommand, Returned => l
  | ExecutingCommand, Elapsed secs =>
      {| loopState := ExecutingCommand;
         pending := match pending l with
                    | Some (remaining, data) => Some (remaining - secs, data)
                    | None => None
                    end;
         calls := calls l |}
  | ExecutingCommand, Incoming _ => l
  | ExecutingCommand, Returned =>
      {| loopState := ReadingCommand; pending := pending l; calls := calls l |}
  end.

Definition steps (inputs : list Input) (l : Loop) : Loop :=
  foldl (fun l i => step i l) l inputs.

(** The loop stays idle for the given intervals. *)
Definition idle (secs : list Z) (l : Loop) : Loop := steps (Elapsed <$> secs) l.

Definition total (secs : list Z) : Z := foldr Z.add 0 secs.

End SlaveBase.

(** ** The other entry points of statjob.cpp *)

Module StatJobApi.
Section Api.
Context {env : KioEnv} {bits : StatDetailBits}.
Import StatJob.

(** [StatJob::setSide(bool)], statjob.cpp:79-82. *)
Definition setSide_bool (source : bool) (j : StatJob) : StatJob :=
  set_bSource source j.

(** [StatJob::setDetails(short int)], statjob.cpp:96-100: the legacy value is
    converted ([short] widens to [int] without change). *)
Definition setDetails_short (details : Z) (j : StatJob) : StatJob :=
  set_details (Details.detailsToStatDetails details) j.

(** [StatJob::setDetails(KIO::StatDetail)], statjob.cpp:102-105. *)
Definition setDetails_detail (detail : Z) (j : StatJob) : StatJob :=
  set_details detail j.

(** [KIO::stat(url, flags)], statjob.cpp:209-213. *)
Definition stat (url : QUrl) : StatJob :=
  statDetails url SourceSide StatDefaultDetails.

(** [KIO::stat(url, bool sideIsSource, short details, flags)],
    statjob.cpp:226-234. *)
Definition stat_bool_short (url : QUrl) (sideIsSource : bool) (details : Z)
  : StatJob :=
  let packedArgs := streamUrl url in
  let job := StatJobPrivate_new url CMD_STAT packedArgs in
  let job := setSide (if sideIsSource then SourceSide else DestinationSide) job in
  let job := setDetails_short details job in
  job.

(** [KIO::stat(url, StatSide, short details, flags)], statjob.cpp:249-257. *)
Definition stat_side_short (url : QUrl) (side : StatSide) (details : Z)
  : StatJob :=
  let packedArgs := streamUrl url in
  let job := StatJobPrivate_new url CMD_STAT packedArgs in
  let job := setSide side job in
  let job := setDetails_short details job in
  job.

(** What [KIO::mostLocalUrl] arranges besides creating the job. *)
Inductive Arrangement :=
| singleShot_slotFinished
| Scheduler_cancelJob.

(** [KIO::mostLocalUrl(url, flags)], statjob.cpp:215-223.  [QUrl::scheme] and
    [KProtocolInfo::protocolClass] are parameters. *)
Definition mostLocalUrl_job (scheme : QUrl -> string)
  (protocolClass : string -> string) (url : QUrl)
  : StatJob * list Arrangement :=
  let job := statDetails url SourceSide StatDefaultDetails in
  if isLocalFile url || negb (String.eqb (protocolClass (scheme url)) ":local")
  then (job, [singleShot_slotFinished; Scheduler_cancelJob])
  else (job, []).

(** *** Reading a run *)

(** The redirection targets announced in a list of events, in order. *)
Fixpoint redirections (evs : list Event) : list QUrl :=
  match evs with
  | [] => []
  | EvRedirection u :: rest => u :: redirections rest
  | _ :: rest => redirections rest
  end.

(** Those the authorization check accepts, and those it rejects, as
    redirections from [fromUrl]. *)
Definition accepted (fromUrl : QUrl) (evs : list Event) : list QUrl :=
  List.filter (fun u => authorizeUrlAction "redirect" fromUrl u)
    (redirections evs).

Definition rejected (fromUrl : QUrl) (evs : list Event) : list QUrl :=
  List.filter (fun u => negb (authorizeUrlAction "redirect" fromUrl u))
    (redirections evs).

(** No Finished among the events. *)
Definition unfinished (evs : list Event) : bool :=
  forallb (fun ev => negb (isFinished ev)) evs.

End Api.
End StatJobApi.

(** Sample jobs for the entry points above. *)
Module SampleJobs.

(** A job on [Sample.remote1] with redirection handling switched off, which
    has recorded a redirection to [Sample.remote2] and received the metadata
    permanent-redirect=true. *)
Definition job_unhandled : @StatJob.StatJob Sample.sample_env :=
  @StatJob.mkStatJob Sample.sample_env 0 "" ∅ {["permanent-redirect" := "true"]}
    Sample.remote1 69
    (@streamUrl Sample.sample_env Sample.remote1) false
    Sample.named Sample.remote2 true 1 0.

(** The same job with redirection handling on. *)
Definition job_redirected : @StatJob.StatJob Sample.sample_env :=
  @StatJob.mkStatJob Sample.sample_env 0 "" ∅ {["permanent-redirect" := "true"]}
    Sample.remote1 69
    (@streamUrl Sample.sample_env Sample.remote1) true
    Sample.named Sample.remote2 true 1 0.

(** An environment in which a URL needs a host to be valid, unless it is a
    local file; otherwise as [Sample.sample_env]. *)
Definition url_isValid (u : Sample.Url) : bool :=
  negb (Sample.url_isEmpty u)
  && (Sample.url_isLocalFile u || negb (String.eqb (Sample.host u) "")).

Definition strict_env : KioEnv :=
  {| QUrl := Sample.Url;
     QUrl_null := Sample.mkUrl "" "" "";
     isEmpty := Sample.url_isEmpty;
     isValid := url_isValid;
     isLocalFile := Sample.url_isLocalFile;
     fromLocalFile := fun p => Sample.mkUrl "file" "" p;
     toDisplayString := Sample.url_display;
     streamUrl := fun u => String.list_byte_of_string (Sample.url_display u);
     authorizeUrlAction := Sample.authorize;
     UDSEntry := Sample.Entry;
     UDSEntry_null := [];
     stringValue := Sample.entry_stringValue;
     UDS_LOCAL_PATH := Z.lor 7 0x01000000;
     ERR_ACCESS_DENIED := 115;
     CMD_STAT := 69;
     StatDefaultDetails := 31;
     ERR_CYCLIC_LINK := 119;
     redirectionLimit := 5;
     QUrl_null_isEmpty := eq_refl |}.

(** A URL that is not empty and not valid there: it has no host. *)
Definition hostless : Sample.Url := Sample.mkUrl "proto" "" "/file".

(** A stat job on [Sample.remote1] in that environment. *)
Definition job_strict : @StatJob.StatJob strict_env :=
  @StatJob.statDetails strict_env Sample.remote1 StatJob.SourceSide 1.

(** The job [job_redirected] after it has followed as many redirections as
    the limit allows. *)
Definition job_exhausted : @StatJob.StatJob Sample.sample_env :=
  @StatJob.set_redirectionHops Sample.sample_env 5 job_redirected.

(** URL schemes and protocol classes for [KIO::mostLocalUrl]. *)
Definition url_scheme (u : Sample.Url) : string := Sample.scheme u.

Definition protocolClass (scheme : string) : string :=
  if String.eqb scheme "file" then ":local"
  else if String.eqb scheme "desktop" then ":local"
  else ":internet".

End SampleJobs.

(** ** The certificate box (ksslcertificatebox.cpp) *)

Module KSslCertificateBox.

(** [Qt::TextFormat]. *)
Inductive TextFormat := PlainText | RichText | AutoText | MarkdownText.

(** A [QLabel], as far as the box uses it. *)
Record QLabel := mkLabel {
  text : string;
  textFormat : TextFormat
}.

Definition setText (s : string) (l : QLabel) : QLabel :=
  {| text := s; textFormat := textFormat l |}.

Definition setTextFormat (f : TextFormat) (l : QLabel) : QLabel :=
  {| text := text l; textFormat := f |}.

Definition label_clear (l : QLabel) : QLabel :=
  {| text := ""; textFormat := textFormat l |}.

(** [Ui::CertificateParty] comes from a form that is not among the sources:
    the six value labels the box writes, and whatever other labels the form
    has. *)
Record Ui := mkUi {
  commonName : QLabel;
  organization : QLabel;
  organizationalUnit : QLabel;
  country : QLabel;
  state : QLabel;
  city : QLabel;
  otherLabels : list QLabel
}.

(** [QSslCertificate::SubjectInfo], the entries the box asks for. *)
Inductive SubjectInfo :=
| CommonName | Organization | OrganizationalUnitName
| CountryName | StateOrProvinceName | LocalityName.

(** Every [QLabel] child of the box, as [findChildren<QLabel *>] finds them. *)
Definition labels (ui : Ui) : list QLabel :=
  [commonName ui; organization ui; organizationalUnit ui;
   country ui; state ui; city ui] ++ otherLabels ui.

(** Every label of the box shows its text as plain text. *)
Definition plain (ui : Ui) : Prop :=
  Forall (fun l => textFormat l = PlainText) (labels ui).

(** The certificate entries, in the order of the six value labels. *)
Definition fields : list SubjectInfo :=
  [CommonName; Organization; OrganizationalUnitName;
   CountryName; StateOrProvinceName; LocalityName].

(** The texts of the six value labels. *)
Definition values (ui : Ui) : list string :=
  [text (commonName ui); text (organization ui); text (organizationalUnit ui);
   text (country ui); text (state ui); text (city ui)].

Section Box.
(** [QSslCertificate] with its two accessors, and the two enumerators of
    [KSslCertificateBox::CertificateParty], are parameters. *)
Variable QSslCertificate : Type.
Variable subjectInfo : QSslCertificate -> SubjectInfo -> list string.
Variable issuerInfo : QSslCertificate -> SubjectInfo -> list string.
Variable Subject : Z.
Variable Issuer : Z.

(** [KSslCertificateBox::KSslCertificateBox], ksslcertificatebox.cpp:33-43,
    on the form [setupUi] has built. *)
Definition KSslCertificateBox_new (form : Ui) : Ui :=
  {| commonName := setTextFormat PlainText (commonName form);
     organization := setTextFormat PlainText (organization form);
     organizationalUnit := setTextFormat PlainText (organizationalUnit form);
     country := setTextFormat PlainText (country form);
     state := setTextFormat PlainText (state form);
     city := setTextFormat PlainText (city form);
     otherLabels := setTextFormat PlainText <$> otherLabels form |}.

(** [KSslCertificateBox::setCertificate], ksslcertificatebox.cpp:50-69.
    [QStringList::join] is [String.concat]. *)
Definition setCertificate (cert : QSslCertificate) (party : Z) (ui : Ui) : Ui :=
  if party =? Subject then
    {| commonName :=
         setText (String.concat ", " (subjectInfo cert CommonName)) (commonName ui);
       organization :=
         setText (String.concat ", " (subjectInfo cert Organization))
           (organization ui);
       organizationalUnit :=
         setText (String.concat ", " (subjectInfo cert OrganizationalUnitName))
           (organizationalUnit ui);
       country :=
         setText (String.concat ", " (subjectInfo cert CountryName)) (country ui);
       state :=
         setText (String.concat ", " (subjectInfo cert StateOrProvinceName))
           (state ui);
       city :=
         setText (String.concat ", " (subjectInfo cert LocalityName)) (city ui);
       otherLabels := otherLabels ui |}
  else if party =? Issuer then
    {| commonName :=
         setText (String.concat ", " (issuerInfo cert CommonName)) (commonName ui);
       organization :=
         setText (String.concat ", " (issuerInfo cert Organization))
           (organization ui);
       organizationalUnit :=
         setText (String.concat ", " (issuerInfo cert OrganizationalUnitName))
           (organizationalUnit ui);
       country :=
         setText (String.concat ", " (issuerInfo cert CountryName)) (country ui);
       state :=
         setText (String.concat ", " (issuerInfo cert StateOrProvinceName))
           (state ui);
       city :=
         setText (String.concat ", " (issuerInfo cert LocalityName)) (city ui);
       otherLabels := otherLabels ui |}
  else ui.

(** [KSslCertificateBox::clear], ksslcertificatebox.cpp:71-79. *)
Definition clear (ui : Ui) : Ui :=
  {| commonName := label_clear (commonName ui);
     organization := label_clear (organization ui);
     organizationalUnit := label_clear (organizationalUnit ui);
     country := label_clear (country ui);
     state := label_clear (state ui);
     city := label_clear (city ui);
     otherLabels := otherLabels ui |}.

(** The calls a user of the box can make. *)
Inductive Call :=
| call_setCertificate (cert : QSslCertificate) (party : Z)
| call_clear.

Definition perform (c : Call) (ui : Ui) : Ui :=
  match c with
  | call_setCertificate cert party => setCertificate cert party ui
  | call_clear => clear ui
  end.

Definition performAll (cs : list Call) (ui : Ui) : Ui :=
  foldl (fun ui c => perform c ui) ui cs.

End Box.

(** A certificate as the two tables of its entries. *)
Record SampleCert := mkCert {
  cert_subject : SubjectInfo -> list string;
  cert_issuer : SubjectInfo -> list string
}.

Definition sample_cert : SampleCert :=
  {| cert_subject := fun i =>
       match i with
       | CommonName => ["<b>example.org</b>"]
       | Organization => ["Example"; "Example Ltd"]
       | _ => []
       end;
     cert_issuer := fun i =>
       match i with
       | CommonName => ["Some CA"]
       | _ => []
       end |}.

Definition sample_form : Ui :=
  {| commonName := mkLabel "TextLabel" AutoText;
     organization := mkLabel "TextLabel" AutoText;
     organizationalUnit := mkLabel "TextLabel" AutoText;
     country := mkLabel "TextLabel" AutoText;
     state := mkLabel "TextLabel" AutoText;
     city := mkLabel "TextLabel" AutoText;
     otherLabels := [mkLabel "Common name:" AutoText] |}.

End KSslCertificateBox.

(** * Properties *)

(** ** The legacy details conversion *)

Module DetailsFacts.
Import Details.
Section Flags.
Context {bits : StatDetailBits}.

Lemma testFlag_bit (flags b : Z) :
  0 <= b -> testFlag flags (Z.shiftl 1 b) = Z.testbit flags b.
Proof.
  intros Hb. unfold testFlag. rewrite Z.shiftl_1_l.
  destruct (Z.testbit flags b) eqn:Hbit.
  - apply Z.eqb_eq, Z.bits_inj'. intros n Hn.
    rewrite Z.land_spec, Z.pow2_bits_eqb by lia.
    destruct (Z.eqb_spec b n) as [->|_]; [by rewrite Hbit | apply andb_false_r].
  - apply Z.eqb_neq. intros Heq.
    assert (Z.testbit (Z.land flags (2 ^ b)) b = true) as Hc.
    { rewrite Heq, Z.pow2_bits_eqb by lia. apply Z.eqb_refl. }
    rewrite Z.land_spec, Hbit in Hc. discriminate.
Qed.

Lemma flag_testbit (a b : Z) :
  0 <= a -> 0 <= b -> Z.testbit (Z.shiftl 1 a) b = (a =? b).
Proof. intros Ha Hb. rewrite Z.shiftl_1_l. by apply Z.pow2_bits_eqb. Qed.

(** Bit [b] of the converted value, read off the three thresholds. *)
Lemma detailsToStatDetails_testbit (details b : Z) :
  distinct_bits -> 0 <= b ->
  Z.testbit (detailsToStatDetails details) b =
    (bitBasic =? b)
    || ((0 <? details) && ((bitUser =? b) || (bitTime =? b)))
    || ((1 <? details) && ((bitResolveSymlink =? b) || (bitAcl =? b)))
    || ((2 <? details) && (bitInode =? b)).
Proof.
  intros [_ Hpos] Hb.
  repeat match goal with
         | H : Forall _ (_ :: _) |- _ => apply Forall_cons in H as [? H]
         end.
  unfold detailsToStatDetails, StatBasic, StatUser, StatTime,
    StatResolveSymlink, StatAcl, StatInode.
  destruct (0 <? details), (1 <? details), (2 <? details); cbn [andb];
    rewrite ?Z.lor_spec, ?flag_testbit by assumption;
    rewrite ?orb_false_r; reflexivity.
Qed.

End Flags.
End DetailsFacts.

(** C10.  For every integer [details], [detailsToStatDetails details] always
    has the Basic flag; it has the User flag and the Time flag exactly when
    [details > 0], the ResolveSymlink flag and the Acl flag exactly when
    [details > 1], and the Inode flag exactly when [details > 2]; and a larger
    legacy value yields a superset of flags. *)
Theorem detailsToStatDetails_thresholds {bits : StatDetailBits} :
  Details.distinct_bits ->
  forall details : Z,
    let flags := Details.detailsToStatDetails details in
    Details.testFlag flags Details.StatBasic = true
    /\ (Details.testFlag flags Details.StatUser = true <-> 0 < details)
    /\ (Details.testFlag flags Details.StatTime = true <-> 0 < details)
    /\ (Details.testFlag flags Details.StatResolveSymlink = true <-> 1 < details)
    /\ (Details.testFlag flags Details.StatAcl = true <-> 1 < details)
    /\ (Details.testFlag flags Details.StatInode = true <-> 2 < details)
    /\ (forall larger : Z, details <= larger ->
          Details.subflags flags (Details.detailsToStatDetails larger)).
Proof.
  intros Hd details flags. subst flags.
  pose proof Hd as [Hnd Hpos].
  repeat match goal with
         | H : Forall _ (_ :: _) |- _ => apply Forall_cons in H as [? H]
         end.
  unfold Details.StatBasic, Details.StatUser, Details.StatTime,
    Details.StatResolveSymlink, Details.StatAcl, Details.StatInode.
  rewrite !DetailsFacts.testFlag_bit by assumption.
  rewrite !DetailsFacts.detailsToStatDetails_testbit by assumption.
  repeat match goal with
         | H : NoDup (_ :: _) |- _ => apply NoDup_cons in H as [? H]
         end.
  repeat match goal with
         | H : _ ∉ _ :: _ |- _ => apply not_elem_of_cons in H as [? H]
         end.
  repeat match goal with
         | H : ?a ≠ ?b |- _ =>
             assert ((a =? b) = false /\ (b =? a) = false) as [? ?]
               by (split; apply Z.eqb_neq; congruence);
             clear H
         end.
  repeat split.
  1-11: repeat match goal with
              | H : (_ =? _) = false |- _ => rewrite ?H; clear H
              end;
        rewrite ?Z.eqb_refl;
        destruct (Z.ltb_spec 0 details), (Z.ltb_spec 1 details),
          (Z.ltb_spec 2 details); cbn; (done || lia).
  - intros larger Hle. unfold Details.subflags. apply Z.bits_inj'. intros n Hn.
    rewrite Z.land_spec.
    rewrite !DetailsFacts.detailsToStatDetails_testbit by assumption.
    clear -Hle.
    destruct (Z.ltb_spec 0 details), (Z.ltb_spec 1 details),
      (Z.ltb_spec 2 details), (Z.ltb_spec 0 larger), (Z.ltb_spec 1 larger),
      (Z.ltb_spec 2 larger); try lia;
      destruct (bitBasic =? n), (bitUser =? n), (bitTime =? n),
        (bitResolveSymlink =? n), (bitAcl =? n), (bitInode =? n); reflexivity.
Qed.

Lemma detailsToStatDetails_thresholds_witness :
  @Details.distinct_bits Details.kio_bits
  /\ @Details.testFlag (@Details.detailsToStatDetails Details.kio_bits 2)
       (@Details.StatAcl Details.kio_bits) = true
  /\ @Details.subflags (@Details.detailsToStatDetails Details.kio_bits 2)
       (@Details.detailsToStatDetails Details.kio_bits 3).
Proof.
  assert (@Details.distinct_bits Details.kio_bits) as Hd.
  { split.
    - apply (bool_decide_unpack _). vm_compute. exact I.
    - repeat (apply Forall_cons; split; [cbn; lia|]). apply Forall_nil_2. }
  split; [exact Hd|].
  pose proof (@detailsToStatDetails_thresholds Details.kio_bits Hd 2) as H.
  cbv zeta in H. destruct H as (_ & _ & _ & _ & Hacl & _ & Hmono).
  split; [apply Hacl; lia | apply Hmono; lia].
Defined.

(** ** The stat job *)

Section StatJobFacts.
Context {env : KioEnv}.
Import StatJob.

(** [start] only touches the outgoing metadata. *)
Lemma start_frame (j : StatJob) :
  let j' := (start j).1 in
  m_url j' = m_url j
  /\ m_redirectionURL j' = m_redirectionURL j
  /\ m_redirectionHandlingEnabled j' = m_redirectionHandlingEnabled j
  /\ m_statResult j' = m_statResult j
  /\ error j' = error j
  /\ m_packedArgs j' = m_packedArgs j.
Proof. by cbn. Qed.

(** A rejected redirection leaves everything but the error untouched; an
    accepted one leaves everything but the redirection URL untouched. *)
Lemma slotRedirection_rejected (url : QUrl) (j : StatJob) :
  authorizeUrlAction "redirect" (m_url j) url = false ->
  slotRedirection url j =
    (setErrorText (toDisplayString url) (setError ERR_ACCESS_DENIED j), []).
Proof. intros H. unfold slotRedirection. by rewrite H. Qed.

Lemma slotRedirection_accepted (url : QUrl) (j : StatJob) :
  authorizeUrlAction "redirect" (m_url j) url = true ->
  slotRedirection url j = (set_redirectionURL url j, [emit_redirection url]).
Proof. intros H. unfold slotRedirection. by rewrite H. Qed.

(** The two ways out of the re-arming. *)
Lemma restartAfterRedirection_below (j : StatJob) :
  (m_redirectionHops j < redirectionLimit)%nat ->
  restartAfterRedirection j =
    (set_redirectionHops (S (m_redirectionHops j))
       (set_redirectionURL QUrl_null (set_url (m_redirectionURL j) j)),
     [rescheduled]).
Proof.
  intros Hlt. apply Nat.ltb_lt in Hlt. unfold restartAfterRedirection.
  by rewrite Hlt.
Qed.

Lemma restartAfterRedirection_exhausted (j : StatJob) :
  (redirectionLimit <= m_redirectionHops j)%nat ->
  restartAfterRedirection j = (setError ERR_CYCLIC_LINK j, [emit_result]).
Proof.
  intros Hle. apply Nat.ltb_ge in Hle. unfold restartAfterRedirection.
  by rewrite Hle.
Qed.

Lemma slotFinished_restart (j : StatJob) :
  isEmpty (m_redirectionURL j) = false ->
  isValid (m_redirectionURL j) = true ->
  m_redirectionHandlingEnabled j = true ->
  (m_redirectionHops j < redirectionLimit)%nat ->
  exists sig,
    slotFinished j =
      (set_redirectionHops (S (m_redirectionHops j))
         (set_redirectionURL QUrl_null
            (set_url (m_redirectionURL j)
               (set_packedArgs (streamUrl (m_redirectionURL j)) j))),
       sig ++ [rescheduled])
    /\ (sig = []
        \/ sig = [emit_permanentRedirection (m_url j) (m_redirectionURL j)]).
Proof.
  intros He Hv Hen Hlt. unfold slotFinished. rewrite He, Hv, Hen.
  cbn [negb andb].
  rewrite restartAfterRedirection_below by exact Hlt.
  destruct (String.eqb _ _); eexists; split; try reflexivity; auto.
Qed.

Lemma slotFinished_exhausted (j : StatJob) :
  isEmpty (m_redirectionURL j) = false ->
  isValid (m_redirectionURL j) = true ->
  m_redirectionHandlingEnabled j = true ->
  (redirectionLimit <= m_redirectionHops j)%nat ->
  exists sig,
    slotFinished j =
      (setError ERR_CYCLIC_LINK
         (set_packedArgs (streamUrl (m_redirectionURL j)) j),
       sig ++ [emit_result])
    /\ (sig = []
        \/ sig = [emit_permanentRedirection (m_url j) (m_redirectionURL j)]).
Proof.
  intros He Hv Hen Hle. unfold slotFinished. rewrite He, Hv, Hen.
  cbn [negb andb].
  rewrite restartAfterRedirection_exhausted by exact Hle.
  destruct (String.eqb _ _); eexists; split; try reflexivity; auto.
Qed.

Lemma slotFinished_disabled (j : StatJob) :
  m_redirectionHandlingEnabled j = false ->
  exists acts,
    slotFinished j = (j, acts) /\ existsb is_rescheduled acts = false
    /\ emit_result ∈ acts.
Proof.
  intros Hen. unfold slotFinished. rewrite Hen.
  destruct (negb _ && _); cbn; [destruct (String.eqb _ _)|];
    eexists; (split; [reflexivity|]); cbn; (split; [done|]);
    rewrite ?elem_of_cons; auto.
Qed.

Lemma slotFinished_no_redirection (j : StatJob) :
  isEmpty (m_redirectionURL j) = true ->
  slotFinished j = (j, [emit_result]).
Proof. intros He. unfold slotFinished. by rewrite He. Qed.

(** A Finished that reschedules the job has re-armed it: the conditions of
    the re-arming held, and the job is the one re-armed. *)
Lemma slotFinished_rescheduled (j : StatJob) :
  existsb is_rescheduled (slotFinished j).2 = true ->
  (slotFinished j).1
    = set_redirectionHops (S (m_redirectionHops j))
        (set_redirectionURL QUrl_null
           (set_url (m_redirectionURL j)
              (set_packedArgs (streamUrl (m_redirectionURL j)) j)))
  /\ (m_redirectionHops j < redirectionLimit)%nat
  /\ isEmpty (m_redirectionURL j) = false
  /\ isValid (m_redirectionURL j) = true
  /\ m_redirectionHandlingEnabled j = true.
Proof.
  destruct (isEmpty (m_redirectionURL j)) eqn:He.
  { rewrite slotFinished_no_redirection by exact He. discriminate. }
  destruct (isValid (m_redirectionURL j)) eqn:Hv.
  2:{ unfold slotFinished. rewrite He, Hv. discriminate. }
  destruct (m_redirectionHandlingEnabled j) eqn:Hen.
  2:{ destruct (slotFinished_disabled j Hen) as (acts & -> & Hno & _).
      cbn [snd]. by rewrite Hno. }
  destruct (Nat.lt_ge_cases (m_redirectionHops j) redirectionLimit) as [Hlt|Hle].
  - destruct (slotFinished_restart j He Hv Hen Hlt) as (sig & -> & _). done.
  - destruct (slotFinished_exhausted j He Hv Hen Hle) as (sig & -> & Hsig).
    cbn [snd]. rewrite existsb_app. by destruct Hsig as [->| ->].
Qed.

(** Neither a redirection nor a Finished changes the stored stat result. *)
Lemma slotRedirection_statResult (url : QUrl) (j : StatJob) :
  m_statResult (slotRedirection url j).1 = m_statResult j.
Proof. unfold slotRedirection. by destruct (negb _). Qed.

Lemma slotFinished_statResult (j : StatJob) :
  m_statResult (slotFinished j).1 = m_statResult j.
Proof.
  unfold slotFinished.
  destruct (negb _ && _); [|done].
  destruct (m_redirectionHandlingEnabled j); [|done].
  unfold restartAfterRedirection. by destruct (_ <? _)%nat.
Qed.

Lemma dispatch_statResult (ev : Event) (j : StatJob) :
  isStatEntry ev = false ->
  m_statResult (jobOf (dispatch ev j)) = m_statResult j.
Proof.
  destruct ev as [entry|url|]; [done| |]; intros _; cbn.
  - pose proof (slotRedirection_statResult url j) as H.
    by destruct (slotRedirection url j).
  - pose proof (slotFinished_statResult j) as H.
    destruct (slotFinished j) as [j' acts]. by destruct (existsb _ _).
Qed.

Lemma consume_statResult (evs : list Event) (j : StatJob) :
  forallb (fun ev => negb (isStatEntry ev)) evs = true ->
  m_statResult (jobOf (consume evs j)) = m_statResult j.
Proof.
  revert j. induction evs as [|ev evs IH]; intros j Hall; [done|].
  cbn in Hall. apply andb_true_iff in Hall as [Hev Hall].
  apply negb_true_iff in Hev.
  pose proof (dispatch_statResult ev j Hev) as Hd. cbn.
  destruct (dispatch ev j) as [j' a|j' a|j' a]; cbn in *; [|done..].
  by rewrite IH.
Qed.

Lemma dispatch_not_finished (ev : Event) (j : StatJob) :
  isFinished ev = false -> exists j' acts, dispatch ev j = Active j' acts.
Proof.
  destruct ev as [entry|url|]; [| |done]; intros _; cbn; [by eauto|].
  destruct (slotRedirection url j); eauto.
Qed.

Lemma consume_app (pre post : list Event) (j : StatJob) :
  forallb (fun ev => negb (isFinished ev)) pre = true ->
  exists j', consume (pre ++ post) j = consume post j'.
Proof.
  revert j. induction pre as [|ev pre IH]; intros j Hall; [by exists j|].
  cbn in Hall. apply andb_true_iff in Hall as [Hev Hall].
  apply negb_true_iff in Hev.
  destruct (dispatch_not_finished ev j Hev) as (j' & acts & Hd).
  cbn. rewrite Hd. apply IH, Hall.
Qed.

Lemma dispatch_requeued (j j' : StatJob) (acts : list Action) :
  dispatch EvFinished j = Requeued j' acts ->
  j' = (slotFinished j).1 /\ existsb is_rescheduled (slotFinished j).2 = true.
Proof.
  cbn [dispatch]. destruct (slotFinished j) as [j1 acts1]. cbn [fst snd].
  destruct (existsb is_rescheduled acts1); [|discriminate].
  by intros [= -> _].
Qed.

(** The payload of a job that was never redirected, and of one that was
    re-armed, is the serialization of its target URL. *)
Lemma requeued_packedArgs (j j' : StatJob) (acts : list Action) :
  dispatch EvFinished j = Requeued j' acts ->
  m_packedArgs j' = streamUrl (m_url j').
Proof.
  intros Hd. apply dispatch_requeued in Hd as [-> Hre].
  apply slotFinished_rescheduled in Hre as [-> _]. reflexivity.
Qed.

(** A run that ends with the job rescheduled has counted one more hop, and
    the count was below the limit. *)
Lemma consume_requeued (evs : list Event) (j j' : StatJob) (acts : list Action) :
  consume evs j = Requeued j' acts ->
  m_redirectionHops j' = S (m_redirectionHops j)
  /\ (m_redirectionHops j < redirectionLimit)%nat.
Proof.
  revert j. induction evs as [|ev evs IH]; intros j Hc; [done|].
  cbn [consume] in Hc.
  destruct ev as [entry|url|].
  - cbn [dispatch] in Hc. by apply IH in Hc.
  - cbn [dispatch] in Hc. unfold slotRedirection in Hc.
    destruct (negb _); cbn in Hc; by apply IH in Hc.
  - destruct (dispatch EvFinished j) as [j1 a|j1 a|j1 a] eqn:Hd;
      [|injection Hc as -> ->|discriminate].
    + cbn [dispatch] in Hd. destruct (slotFinished j).
      by destruct (existsb _ _).
    + apply dispatch_requeued in Hd as [-> Hre].
      apply slotFinished_rescheduled in Hre as (-> & Hlt & _). by cbn.
Qed.

(** One hop: a followable redirection re-arms the job against the new URL,
    as long as the limit is not reached. *)
Lemma consume_hop (u : QUrl) (j : StatJob) :
  authorizeUrlAction "redirect" (m_url j) u = true ->
  isEmpty u = false -> isValid u = true ->
  m_redirectionHandlingEnabled j = true ->
  (m_redirectionHops j < redirectionLimit)%nat ->
  exists j' acts,
    consume [EvRedirection u; EvFinished] (start j).1 = Requeued j' acts
    /\ m_url j' = u
    /\ isEmpty (m_redirectionURL j') = true
    /\ m_redirectionHandlingEnabled j' = true
    /\ error j' = error j
    /\ m_redirectionHops j' = S (m_redirectionHops j).
Proof.
  intros Hau He Hv Hen Hlt.
  cbn [consume dispatch].
  rewrite slotRedirection_accepted by exact Hau.
  destruct (slotFinished_restart (set_redirectionURL u (start j).1))
    as (sig & Hfin & Hsig); [done..|].
  rewrite Hfin, existsb_app. cbn.
  replace (existsb is_rescheduled sig) with false by (by destruct Hsig as [->| ->]).
  cbn.
  do 2 eexists. split; [reflexivity|]. cbn.
  repeat split; [apply QUrl_null_isEmpty | exact Hen].
Qed.

(** The hop past the limit: the job fails with the loop-detection error. *)
Lemma consume_exhausted (u : QUrl) (j : StatJob) :
  authorizeUrlAction "redirect" (m_url j) u = true ->
  isEmpty u = false -> isValid u = true ->
  m_redirectionHandlingEnabled j = true ->
  (redirectionLimit <= m_redirectionHops j)%nat ->
  exists j' acts,
    consume [EvRedirection u; EvFinished] (start j).1 = Terminated j' acts
    /\ error j' = ERR_CYCLIC_LINK
    /\ emit_result ∈ acts.
Proof.
  intros Hau He Hv Hen Hle.
  cbn [consume dispatch].
  rewrite slotRedirection_accepted by exact Hau.
  destruct (slotFinished_exhausted (set_redirectionURL u (start j).1))
    as (sig & Hfin & Hsig); [done..|].
  rewrite Hfin, existsb_app. cbn.
  replace (existsb is_rescheduled sig) with false by (by destruct Hsig as [->| ->]).
  cbn.
  do 2 eexists. split; [reflexivity|]. split; [reflexivity|].
  rewrite elem_of_app, list_elem_of_singleton. by right.
Qed.

(** The last run: no redirection is recorded, the job finishes. *)
Lemma consume_last (entry : UDSEntry) (j : StatJob) :
  isEmpty (m_redirectionURL j) = true ->
  consume [EvStatEntry entry; EvFinished] (start j).1 =
    Terminated (slotStatEntry entry (start j).1) [emit_result].
Proof.
  intros He. cbn [consume dispatch].
  by rewrite slotFinished_no_redirection.
Qed.

Lemma runJob_S (fuel hops : nat) (worker : nat -> list Event) (j : StatJob) :
  runJob (S fuel) hops worker j =
    match consume (worker hops) (start j).1 with
    | Requeued j' _ => runJob fuel (S hops) worker j'
    | Terminated j' _ => Completed j' hops
    | Active j' _ => Stalled j'
    end.
Proof. reflexivity. Qed.

Lemma runJob_chain (entry : UDSEntry) (rest done : list QUrl) (j : StatJob) :
  followable (m_url j) rest = true ->
  isEmpty (m_redirectionURL j) = true ->
  m_redirectionHandlingEnabled j = true ->
  (m_redirectionHops j + length rest <= redirectionLimit)%nat ->
  exists j',
    runJob (S (length rest)) (length done) (chainWorker (done ++ rest) entry) j
      = Completed j' (length (done ++ rest))
    /\ error j' = error j
    /\ m_url j' = default (m_url j) (last rest)
    /\ statResult j' = entry.
Proof.
  revert done j. induction rest as [|u rest IH]; intros done j Hf He Hen Hlim.
  - cbn [length]. rewrite runJob_S. unfold chainWorker.
    rewrite app_nil_r, lookup_ge_None_2 by lia.
    rewrite consume_last by exact He.
    eexists. split; [reflexivity|]. by cbn.
  - cbn in Hf. repeat (apply andb_true_iff in Hf as [Hf ?]).
    match goal with H : negb _ = true |- _ => apply negb_true_iff in H end.
    cbn [length] in Hlim.
    destruct (consume_hop u j)
      as (j' & acts & Hc & Hu & He' & Hen' & Herr & Hhops); [done..|lia|].
    cbn [length]. rewrite runJob_S. unfold chainWorker at 1.
    rewrite lookup_app_r, Nat.sub_diag by lia. cbn [lookup list_lookup].
    rewrite Hc.
    destruct (IH (done ++ [u]) j') as (j'' & Hrun & Herr' & Hu' & Hres);
      [by rewrite Hu|done..|lia|].
    rewrite <- app_assoc, length_app, Nat.add_1_r in Hrun. cbn [app] in Hrun.
    exists j''. split; [exact Hrun|]. rewrite Herr', Herr, Hu', Hu.
    repeat split; [|done]. rewrite last_cons. by destruct (last rest).
Qed.

(** The scheduler loop ends: a job that has followed [h] redirections is run
    at most [redirectionLimit - h + 1] times, whatever the workers send. *)
Lemma runJob_terminates (fuel hops : nat) (worker : nat -> list Event)
  (j : StatJob) :
  (redirectionLimit - m_redirectionHops j < fuel)%nat ->
  runJob fuel hops worker j <> OutOfFuel
  /\ forall j' n,
       runJob fuel hops worker j = Completed j' n ->
       (n <= hops + (redirectionLimit - m_redirectionHops j))%nat.
Proof.
  revert hops j. induction fuel as [|fuel IH]; intros hops j Hlt; [lia|].
  rewrite runJob_S.
  destruct (consume (worker hops) (start j).1) as [j1 a|j1 a|j1 a] eqn:Hc.
  - split; [discriminate|]. intros j' n [=].
  - apply consume_requeued in Hc as [Hh Hlim]. cbn in Hh, Hlim.
    destruct (IH (S hops) j1) as [Hne Hbound]; [lia|].
    split; [exact Hne|]. intros j' n Hrun. apply Hbound in Hrun. lia.
  - split; [discriminate|]. intros j' n [= _ <-]. lia.
Qed.

(** Workers that redirect on every run drive the job to the limit, where it
    fails with the loop-detection error. *)
Lemma runJob_redirecting (u : QUrl) (left hops : nat) (j : StatJob) :
  authorizeUrlAction "redirect" u u = true ->
  isEmpty u = false -> isValid u = true ->
  authorizeUrlAction "redirect" (m_url j) u = true ->
  m_redirectionHandlingEnabled j = true ->
  (m_redirectionHops j + left = redirectionLimit)%nat ->
  exists j',
    runJob (S left) hops (redirectingWorker u) j = Completed j' (hops + left)
    /\ error j' = ERR_CYCLIC_LINK.
Proof.
  intros Huu He Hv. revert hops j.
  induction left as [|left IH]; intros hops j Hau Hen Hlim.
  - destruct (consume_exhausted u j) as (j' & acts & Hc & Herr & _);
      [done..|lia|].
    rewrite runJob_S. unfold redirectingWorker at 1. rewrite Hc.
    exists j'. by rewrite Nat.add_0_r.
  - destruct (consume_hop u j) as (j' & acts & Hc & Hu & _ & Hen' & _ & Hh);
      [done..|lia|].
    rewrite runJob_S. unfold redirectingWorker at 1. rewrite Hc.
    destruct (IH (S hops) j') as (j'' & Hrun & Herr);
      [by rewrite Hu | done | lia |].
    exists j''. split; [|exact Herr]. rewrite Hrun. f_equal. lia.
Qed.

(** The actions of [slotFinished]: the permanent-redirection signal if it is
    due, then either the rescheduling or the result. *)
Lemma slotFinished_actions (j : StatJob) :
  exists final,
    (final = rescheduled \/ final = emit_result)
    /\ (slotFinished j).2
       = (if negb (isEmpty (m_redirectionURL j)) && isValid (m_redirectionURL j)
             && String.eqb (queryMetaData "permanent-redirect" j) "true"
          then [emit_permanentRedirection (m_url j) (m_redirectionURL j)]
          else [])
         ++ [final].
Proof.
  unfold slotFinished.
  destruct (negb (isEmpty (m_redirectionURL j)) && isValid (m_redirectionURL j));
    cbn [andb]; [|exists emit_result; auto].
  destruct (m_redirectionHandlingEnabled j).
  - unfold restartAfterRedirection.
    cbn [m_redirectionHops set_packedArgs].
    destruct (m_redirectionHops j <? redirectionLimit)%nat;
      [exists rescheduled | exists emit_result]; by auto.
  - exists emit_result. by auto.
Qed.

End StatJobFacts.




(** C3.  A Redirection(url) event is first submitted to the authorization
    check for the "redirect" action from the job's current URL to [url].  If
    the check rejects it, the job's error becomes access-denied with the
    rejected URL as error text, the recorded redirection URL is left as it
    was, no signal is emitted, and Finished then decides exactly as if the
    event had never arrived (a job with no redirection recorded finishes).
    If the check accepts it, the URL is recorded and the redirection signal
    is emitted with it. *)
Theorem slotRedirection_authorization {env : KioEnv}
  (url : QUrl) (j : StatJob.StatJob) :
  (authorizeUrlAction "redirect" (StatJob.m_url j) url = false ->
     let j' := (StatJob.slotRedirection url j).1 in
     StatJob.error j' = ERR_ACCESS_DENIED
     /\ StatJob.errorText j' = toDisplayString url
     /\ StatJob.m_redirectionURL j' = StatJob.m_redirectionURL j
     /\ (StatJob.slotRedirection url j).2 = []
     /\ (StatJob.slotFinished j').2 = (StatJob.slotFinished j).2
     /\ (isEmpty (StatJob.m_redirectionURL j) = true ->
         StatJob.dispatch StatJob.EvFinished j'
           = StatJob.Terminated j' [StatJob.emit_result]))
  /\ (authorizeUrlAction "redirect" (StatJob.m_url j) url = true ->
     let j' := (StatJob.slotRedirection url j).1 in
     StatJob.m_redirectionURL j' = url
     /\ (StatJob.slotRedirection url j).2 = [StatJob.emit_redirection url]
     /\ StatJob.error j' = StatJob.error j
     /\ StatJob.errorText j' = StatJob.errorText j).
Proof.
  split; intros Hau j'; subst j'.
  - rewrite slotRedirection_rejected by exact Hau. cbn [fst snd].
    repeat split.
    + unfold StatJob.slotFinished. cbn.
      destruct (negb _ && _); [|done].
      destruct (StatJob.m_redirectionHandlingEnabled j); [|done].
      unfold StatJob.restartAfterRedirection.
      cbn [StatJob.m_redirectionHops StatJob.set_packedArgs
           StatJob.setErrorText StatJob.setError].
      by destruct (StatJob.m_redirectionHops j <? redirectionLimit)%nat.
    + intros He. cbn [StatJob.dispatch].
      by rewrite slotFinished_no_redirection.
  - rewrite slotRedirection_accepted by exact Hau. by cbn.
Qed.

Lemma slotRedirection_authorization_witness :
  let j' := (@StatJob.slotRedirection Sample.sample_env Sample.secret
               Sample.job1).1 in
  StatJob.error j' = 115
  /\ StatJob.errorText j' = "file:///etc/secret"
  /\ StatJob.m_redirectionURL j' = StatJob.m_redirectionURL Sample.job1.
Proof.
  destruct (@slotRedirection_authorization Sample.sample_env Sample.secret
              Sample.job1) as [Hrej _].
  destruct (Hrej eq_refl) as (H1 & H2 & H3 & _).
  exact (conj H1 (conj H2 H3)).
Defined.

(** C7.  When a stat job is started it first sends its outgoing metadata, in
    which the key statSide holds "source" or "dest" according to the side set
    with [setSide] and the key statDetails holds the decimal rendering of the
    value set with [setDetails], and then its command with its packed
    arguments; for a job created by [KIO::statDetails] the command is STAT
    and the packed arguments are the serialized target URL. *)
Theorem start_sends_arguments {env : KioEnv}
  (side : StatJob.StatSide) (details : Z) :
  (forall j : StatJob.StatJob,
      exists meta : gmap string string,
        (StatJob.start (StatJob.setDetails details (StatJob.setSide side j))).2
          = [StatJob.send_metaData meta;
             StatJob.send_command (StatJob.m_command j) (StatJob.m_packedArgs j)]
        /\ meta !! "statSide"
           = Some (match side with
                   | StatJob.SourceSide => "source"
                   | StatJob.DestinationSide => "dest"
                   end)
        /\ meta !! "statDetails" = Some (pretty details))
  /\ (forall url : QUrl,
        (StatJob.start (StatJob.statDetails url side details)).2
          !! 1%nat
        = Some (StatJob.send_command CMD_STAT (streamUrl url))).
Proof.
  split.
  - intros j. eexists. split; [reflexivity|]. cbn. split.
    + rewrite lookup_insert_ne by done. rewrite lookup_insert_eq.
      by destruct side.
    + by rewrite lookup_insert_eq.
  - intros url. reflexivity.
Qed.

(** C8.  Two runs that receive the same StatEntry event surface the same
    entry, whatever the two jobs held before and whatever else the two
    workers sent: the entry is stored unmodified, and nothing that follows it
    in a run (redirections, Finished) alters it. *)
Theorem statResult_same_entry {env : KioEnv}
  (j1 j2 : StatJob.StatJob) (entry : UDSEntry)
  (pre1 post1 pre2 post2 : list StatJob.Event) :
  forallb (fun ev => negb (StatJob.isFinished ev)) pre1 = true ->
  forallb (fun ev => negb (StatJob.isFinished ev)) pre2 = true ->
  forallb (fun ev => negb (StatJob.isStatEntry ev)) post1 = true ->
  forallb (fun ev => negb (StatJob.isStatEntry ev)) post2 = true ->
  let run1 := StatJob.consume (pre1 ++ StatJob.EvStatEntry entry :: post1) j1 in
  let run2 := StatJob.consume (pre2 ++ StatJob.EvStatEntry entry :: post2) j2 in
  StatJob.statResult (StatJob.slotStatEntry entry j1) = entry
  /\ StatJob.statResult (StatJob.jobOf run1) = entry
  /\ StatJob.statResult (StatJob.jobOf run1)
     = StatJob.statResult (StatJob.jobOf run2).
Proof.
  intros Hpre1 Hpre2 Hpost1 Hpost2 run1 run2.
  assert (forall pre post j,
    forallb (fun ev => negb (StatJob.isFinished ev)) pre = true ->
    forallb (fun ev => negb (StatJob.isStatEntry ev)) post = true ->
    StatJob.statResult
      (StatJob.jobOf (StatJob.consume (pre ++ StatJob.EvStatEntry entry :: post) j))
      = entry) as Hrun.
  { intros pre post j Hpre Hpost.
    destruct (consume_app pre (StatJob.EvStatEntry entry :: post) j Hpre)
      as (j' & ->).
    cbn [StatJob.consume StatJob.dispatch]. unfold StatJob.statResult.
    by rewrite consume_statResult. }
  subst run1 run2. rewrite !Hrun by done. done.
Qed.

Lemma statResult_same_entry_witness :
  let entry : @UDSEntry Sample.sample_env := Sample.named in
  StatJob.statResult
    (StatJob.jobOf
       (@StatJob.consume Sample.sample_env
          ([@StatJob.EvRedirection Sample.sample_env Sample.remote2]
             ++ StatJob.EvStatEntry entry :: [StatJob.EvFinished]) Sample.job1))
  = StatJob.statResult
      (StatJob.jobOf
         (@StatJob.consume Sample.sample_env
            ([] ++ StatJob.EvStatEntry entry :: [StatJob.EvFinished])
            (StatJob.setSide StatJob.DestinationSide Sample.job1))).
Proof.
  intros entry.
  apply (@statResult_same_entry Sample.sample_env Sample.job1
           (StatJob.setSide StatJob.DestinationSide Sample.job1) entry
           [@StatJob.EvRedirection Sample.sample_env Sample.remote2]
           [StatJob.EvFinished]
           [] [StatJob.EvFinished]); reflexivity.
Defined.

(** C9.  [mostLocalUrl] returns the job's own URL when it is a local file;
    otherwise, when the UDS_LOCAL_PATH string of the stored stat result is
    not empty, the local-file URL built from it; and the job's own URL when
    that string is empty. *)
Theorem mostLocalUrl_cases {env : KioEnv} (j : StatJob.StatJob) :
  let path := stringValue (StatJob.m_statResult j) UDS_LOCAL_PATH in
  (isLocalFile (StatJob.m_url j) = true ->
     StatJob.mostLocalUrl j = StatJob.m_url j)
  /\ (isLocalFile (StatJob.m_url j) = false -> path <> "" ->
     StatJob.mostLocalUrl j = fromLocalFile path)
  /\ (isLocalFile (StatJob.m_url j) = false -> path = "" ->
     StatJob.mostLocalUrl j = StatJob.m_url j).
Proof.
  intros path. unfold StatJob.mostLocalUrl. fold path.
  repeat split.
  - by intros ->.
  - intros -> Hne. by apply String.eqb_neq in Hne as ->.
  - intros -> ->. reflexivity.
Qed.

Lemma mostLocalUrl_cases_witness :
  @StatJob.mostLocalUrl Sample.sample_env
    (@StatJob.slotStatEntry Sample.sample_env Sample.located Sample.job1)
  = Sample.mkUrl "file" "" "/mnt/file".
Proof.
  destruct (@mostLocalUrl_cases Sample.sample_env
              (@StatJob.slotStatEntry Sample.sample_env Sample.located
                 Sample.job1)) as (_ & Hpath & _).
  apply Hpath; [reflexivity | discriminate].
Defined.

(** C4.  The re-arming of a stat job along a chain of redirections ends:
    whatever the workers send, a job that has followed [h] redirections is
    run at most [redirectionLimit - h + 1] more times and is re-armed at most
    [redirectionLimit - h] times.  A chain within the limit is followed to
    its end, where the job finishes without error on the last URL; when the
    workers redirect on every run, the job fails with the loop-detection
    error once it has followed as many redirections as the limit allows. *)
Theorem redirection_chain_terminates {env : KioEnv}
  (url : QUrl) (side : StatJob.StatSide) (details : Z) :
  (forall (worker : nat -> list StatJob.Event) (j : StatJob.StatJob),
      let fuel := S (redirectionLimit - StatJob.m_redirectionHops j) in
      StatJob.runJob fuel 0 worker j <> StatJob.OutOfFuel
      /\ forall j' hops,
           StatJob.runJob fuel 0 worker j = StatJob.Completed j' hops ->
           (hops <= redirectionLimit - StatJob.m_redirectionHops j)%nat)
  /\ (forall (urls : list QUrl) (entry : UDSEntry),
        StatJob.followable url urls = true ->
        (length urls <= redirectionLimit)%nat ->
        exists j',
          StatJob.runJob (S (length urls)) 0 (StatJob.chainWorker urls entry)
            (StatJob.statDetails url side details)
            = StatJob.Completed j' (length urls)
          /\ StatJob.error j' = 0
          /\ StatJob.m_url j' = default url (last urls)
          /\ StatJob.statResult j' = entry)
  /\ (forall u : QUrl,
        StatJob.followable url [u; u] = true ->
        exists j',
          StatJob.runJob (S redirectionLimit) 0 (StatJob.redirectingWorker u)
            (StatJob.statDetails url side details)
            = StatJob.Completed j' redirectionLimit
          /\ StatJob.error j' = ERR_CYCLIC_LINK).
Proof.
  split; [|split].
  - intros worker j fuel. subst fuel.
    destruct (runJob_terminates
                (S (redirectionLimit - StatJob.m_redirectionHops j)) 0 worker j)
      as [Hne Hbound]; [lia|].
    split; [exact Hne|]. intros j' hops Hrun. by apply Hbound in Hrun.
  - intros urls entry Hf Hlen.
    destruct (runJob_chain entry urls [] (StatJob.statDetails url side details))
      as (j' & Hrun & Herr & Hurl & Hres);
      [exact Hf | apply QUrl_null_isEmpty | reflexivity | exact Hlen |].
    exists j'. split; [exact Hrun|]. by rewrite Herr, Hurl, Hres.
  - intros u Hf. cbn in Hf.
    repeat (apply andb_true_iff in Hf as [Hf ?]).
    repeat match goal with
           | H : _ && _ = true |- _ => apply andb_true_iff in H as [H ?]
           | H : negb _ = true |- _ => apply negb_true_iff in H
           end.
    destruct (runJob_redirecting u redirectionLimit 0
                (StatJob.statDetails url side details))
      as (j' & Hrun & Herr); [done..|reflexivity|].
    exists j'. split; [exact Hrun | exact Herr].
Qed.

Lemma redirection_chain_terminates_witness :
  exists j',
    @StatJob.runJob Sample.sample_env 6 0
      (@StatJob.redirectingWorker Sample.sample_env Sample.remote2)
      Sample.job1
    = StatJob.Completed j' 5
    /\ StatJob.error j' = 119.
Proof.
  destruct (@redirection_chain_terminates Sample.sample_env Sample.remote1
              StatJob.SourceSide 1) as (_ & _ & Hloop).
  exact (Hloop Sample.remote2 eq_refl).
Defined.

(** ** The worker side *)

Module SlaveBaseFacts.
Import SlaveBase.

Lemma terminals_app (a b : list Event) :
  terminals (a ++ b) = (terminals a + terminals b)%nat.
Proof. unfold terminals. by rewrite List.filter_app, length_app. Qed.

Lemma terminals_single (e : Event) :
  terminals [e] = if is_terminal e then 1%nat else 0%nat.
Proof. unfold terminals. cbn. by destruct (is_terminal e). Qed.

Lemma send_well_formed (e : Event) (o : Operation) :
  well_formed o -> well_formed (send e o).
Proof.
  unfold well_formed, send.
  destruct (phase o) eqn:Hp; cbn [phase delivered]; [|done..].
  intros Hz. destruct (is_terminal e) eqn:He; cbn [phase delivered].
  - by exists (delivered o), e.
  - by rewrite terminals_app, terminals_single, He, Hz.
Qed.

Lemma emitAll_well_formed (body : list Event) (o : Operation) :
  well_formed o -> well_formed (emitAll body o).
Proof.
  revert o. induction body as [|e body IH]; intros o Hwf; [done|].
  cbn. apply IH, send_well_formed, Hwf.
Qed.

Lemma newOperation_well_formed : well_formed newOperation.
Proof. reflexivity. Qed.

(** In a well-formed trace nothing follows a terminal event. *)
Lemma well_formed_terminal_last (o : Operation) (pre post : list Event) (e : Event) :
  well_formed o -> delivered o = pre ++ e :: post -> is_terminal e = true ->
  post = [].
Proof.
  unfold well_formed. intros Hwf Hd He.
  destruct (phase o).
  - rewrite Hd, terminals_app in Hwf.
    change (e :: post) with ([e] ++ post) in Hwf.
    rewrite terminals_app, terminals_single, He in Hwf. lia.
  - destruct Hwf as (pre' & t & Hd' & _ & Hz).
    destruct post as [|x post _] using rev_ind; [done|].
    rewrite Hd in Hd'.
    change (pre ++ e :: post ++ [x]) with (pre ++ (e :: post) ++ [x]) in Hd'.
    rewrite app_assoc in Hd'. apply app_inj_tail in Hd' as [<- _].
    change (e :: post) with ([e] ++ post) in Hz.
    rewrite !terminals_app, terminals_single, He in Hz. lia.
  - destruct Hwf as (pre' & t & Hd' & _ & Hz).
    destruct post as [|x post _] using rev_ind; [done|].
    rewrite Hd in Hd'.
    change (pre ++ e :: post ++ [x]) with (pre ++ (e :: post) ++ [x]) in Hd'.
    rewrite app_assoc in Hd'. apply app_inj_tail in Hd' as [<- _].
    change (e :: post) with ([e] ++ post) in Hz.
    rewrite !terminals_app, terminals_single, He in Hz. lia.
Qed.

Lemma well_formed_terminals (o : Operation) :
  well_formed o -> (terminals (delivered o) <= 1)%nat.
Proof.
  unfold well_formed. destruct (phase o).
  - intros ->. lia.
  - intros (pre & t & -> & Ht & Hz).
    rewrite terminals_app, terminals_single, Ht, Hz. lia.
  - intros (pre & t & -> & Ht & Hz).
    rewrite terminals_app, terminals_single, Ht, Hz. lia.
Qed.

End SlaveBaseFacts.

(** C1.  For every operation the worker runs, the delivered trace ends with
    exactly one terminal event (Finished or Error) and has none before it; at
    every point of the execution at most one terminal event has been
    delivered and nothing follows it; in particular [finished] after [error]
    and [error] after [finished] deliver nothing. *)
Theorem operation_single_terminal :
  (forall body : list SlaveBase.Event,
      exists pre t,
        SlaveBase.delivered (SlaveBase.runOperation body) = pre ++ [t]
        /\ SlaveBase.is_terminal t = true
        /\ SlaveBase.terminals pre = 0%nat)
  /\ (forall body : list SlaveBase.Event,
        let trace :=
          SlaveBase.delivered (SlaveBase.emitAll body SlaveBase.newOperation) in
        (SlaveBase.terminals trace <= 1)%nat
        /\ forall pre e post,
             trace = pre ++ e :: post -> SlaveBase.is_terminal e = true ->
             post = [])
  /\ (forall o code text,
        SlaveBase.delivered (SlaveBase.finished (SlaveBase.error code text o))
        = SlaveBase.delivered (SlaveBase.error code text o))
  /\ (forall o code text,
        SlaveBase.delivered (SlaveBase.error code text (SlaveBase.finished o))
        = SlaveBase.delivered (SlaveBase.finished o)).
Proof.
  repeat split.
  - intros body.
    pose proof (SlaveBaseFacts.emitAll_well_formed body _
                  SlaveBaseFacts.newOperation_well_formed) as Hwf.
    unfold SlaveBase.runOperation, SlaveBase.well_formed in *.
    destruct (SlaveBase.phase (SlaveBase.emitAll body SlaveBase.newOperation))
      eqn:Hp; [|exact Hwf..].
    unfold SlaveBase.error, SlaveBase.send. rewrite Hp. cbn.
    by eexists _, _.
  - apply SlaveBaseFacts.well_formed_terminals,
      SlaveBaseFacts.emitAll_well_formed,
      SlaveBaseFacts.newOperation_well_formed.
  - intros pre e post Htr He.
    eapply SlaveBaseFacts.well_formed_terminal_last; [|exact Htr|exact He].
    apply SlaveBaseFacts.emitAll_well_formed,
      SlaveBaseFacts.newOperation_well_formed.
  - intros o code text. unfold SlaveBase.finished, SlaveBase.error,
      SlaveBase.send. by destruct (SlaveBase.phase o).
  - intros o code text. unfold SlaveBase.finished, SlaveBase.error,
      SlaveBase.send. by destruct (SlaveBase.phase o).
Qed.

Lemma operation_single_terminal_witness :
  (SlaveBase.terminals
     (SlaveBase.delivered
        (SlaveBase.emitAll
           [SlaveBase.StatEntry [];
            SlaveBase.Error SlaveBase.AccessDenied "/secret";
            SlaveBase.Finished] SlaveBase.newOperation)) <= 1)%nat.
Proof.
  destruct operation_single_terminal as (_ & Hpartial & _).
  exact (proj1 (Hpartial [SlaveBase.StatEntry [];
                          SlaveBase.Error SlaveBase.AccessDenied "/secret";
                          SlaveBase.Finished])).
Defined.

Module MetaDataFacts.
Import SlaveBase.

Lemma setAll_outgoing (kvs : list (string * string)) (s : Session) :
  mOutgoingMetaData (setAll kvs s) = addAll kvs (mOutgoingMetaData s)
  /\ sent (setAll kvs s) = sent s.
Proof.
  revert s. induction kvs as [|kv kvs IH]; intros s; [done|].
  change (setAll (kv :: kvs) s) with (setAll kvs (setMetaData kv.1 kv.2 s)).
  destruct (IH (setMetaData kv.1 kv.2 s)) as [-> ->]. done.
Qed.

(** A key that the entries do not set keeps the value it had. *)
Lemma addAll_lookup_other (kvs : list (string * string))
  (m : gmap string string) (key : string) :
  key ∉ kvs.*1 -> addAll kvs m !! key = m !! key.
Proof.
  revert m. induction kvs as [|[k v] kvs IH]; intros m Hnot; [done|].
  cbn in Hnot. apply not_elem_of_cons in Hnot as [Hne Hnot].
  change (addAll ((k, v) :: kvs) m) with (addAll kvs (<[k := v]> m)).
  rewrite IH by exact Hnot. by apply lookup_insert_ne.
Qed.

End MetaDataFacts.

(** C6.  [sendMetaData] transmits the accumulated outgoing metadata and
    leaves it empty; [sendAndKeepMetaData] transmits the same and leaves it
    as it was.  So after [sendMetaData] the next flush carries only what was
    set since (a key of the earlier job that is not set again is absent),
    whereas after [sendAndKeepMetaData] the next flush still carries the
    earlier entries. *)
Theorem outgoing_metadata_flush (s : SlaveBase.Session) :
  (SlaveBase.sent (SlaveBase.sendMetaData s)
     = SlaveBase.sent s ++ [SlaveBase.Metadata (SlaveBase.mOutgoingMetaData s)]
   /\ SlaveBase.mOutgoingMetaData (SlaveBase.sendMetaData s) = ∅)
  /\ (SlaveBase.sent (SlaveBase.sendAndKeepMetaData s)
        = SlaveBase.sent s ++ [SlaveBase.Metadata (SlaveBase.mOutgoingMetaData s)]
      /\ SlaveBase.mOutgoingMetaData (SlaveBase.sendAndKeepMetaData s)
         = SlaveBase.mOutgoingMetaData s)
  /\ (forall kvs key,
        key ∉ kvs.*1 ->
        exists later,
          SlaveBase.sent
            (SlaveBase.sendMetaData
               (SlaveBase.setAll kvs (SlaveBase.sendMetaData s)))
          = SlaveBase.sent s
              ++ [SlaveBase.Metadata (SlaveBase.mOutgoingMetaData s);
                  SlaveBase.Metadata later]
          /\ later = SlaveBase.mapOf kvs
          /\ later !! key = None)
  /\ (forall kvs key,
        key ∉ kvs.*1 ->
        exists later,
          SlaveBase.sent
            (SlaveBase.sendMetaData
               (SlaveBase.setAll kvs (SlaveBase.sendAndKeepMetaData s)))
          = SlaveBase.sent s
              ++ [SlaveBase.Metadata (SlaveBase.mOutgoingMetaData s);
                  SlaveBase.Metadata later]
          /\ later = SlaveBase.addAll kvs (SlaveBase.mOutgoingMetaData s)
          /\ later !! key = SlaveBase.mOutgoingMetaData s !! key).
Proof.
  repeat split.
  - intros kvs key Hnot. eexists. split; [|split; [reflexivity|]].
    + unfold SlaveBase.sendMetaData at 1. cbn [SlaveBase.sent SlaveBase.sendAndKeepMetaData].
      destruct (MetaDataFacts.setAll_outgoing kvs (SlaveBase.sendMetaData s))
        as [-> ->].
      cbn. by rewrite <- app_assoc.
    + unfold SlaveBase.mapOf.
      by rewrite MetaDataFacts.addAll_lookup_other.
  - intros kvs key Hnot. eexists. split; [|split; [reflexivity|]].
    + unfold SlaveBase.sendMetaData at 1. cbn [SlaveBase.sent SlaveBase.sendAndKeepMetaData].
      destruct (MetaDataFacts.setAll_outgoing kvs (SlaveBase.sendAndKeepMetaData s))
        as [-> ->].
      cbn. by rewrite <- app_assoc.
    + by rewrite MetaDataFacts.addAll_lookup_other.
Qed.

Lemma outgoing_metadata_flush_witness :
  exists later,
    SlaveBase.sent
      (SlaveBase.sendMetaData
         (SlaveBase.setAll [("statSide", "source")]
            (SlaveBase.sendMetaData
               (SlaveBase.mkSession {["ssl_in_use" := "TRUE"]} ∅ []))))
    = [] ++ [SlaveBase.Metadata {["ssl_in_use" := "TRUE"]};
             SlaveBase.Metadata later]
    /\ later = SlaveBase.mapOf [("statSide", "source")]
    /\ later !! "ssl_in_use" = None.
Proof.
  destruct (outgoing_metadata_flush
              (SlaveBase.mkSession {["ssl_in_use" := "TRUE"]} ∅ []))
    as (_ & _ & Hlater & _).
  apply (Hlater [("statSide", "source")] "ssl_in_use").
  cbn. rewrite list_elem_of_singleton. discriminate.
Defined.

Module TimeoutFacts.
Import SlaveBase.

Lemma idle_cons (a : Z) (secs : list Z) (l : Loop) :
  idle (a :: secs) l = idle secs (step (Elapsed a) l).
Proof. reflexivity. Qed.

Lemma total_cons (a : Z) (secs : list Z) : total (a :: secs) = a + total secs.
Proof. reflexivity. Qed.

Lemma total_nonneg (secs : list Z) :
  Forall (fun a => 0 <= a) secs -> 0 <= total secs.
Proof. induction 1 as [|a secs Ha _ IH]; [done|]. rewrite total_cons. lia. Qed.

(** With nothing armed the idle loop does nothing. *)
Lemma idle_disarmed (secs : list Z) (l : Loop) :
  loopState l = ReadingCommand -> pending l = None -> idle secs l = l.
Proof.
  intros Hs Hp. induction secs as [|a secs IH]; [done|].
  rewrite idle_cons. unfold step at 1. by rewrite Hs, Hp.
Qed.

(** With a timeout armed the idle loop fires as soon as the time waited
    reaches the time left, and not before. *)
Lemma idle_armed (secs : list Z) (l : Loop) (remaining : Z) (data : QByteArray) :
  loopState l = ReadingCommand -> pending l = Some (remaining, data) ->
  Forall (fun a => 0 <= a) secs ->
  (secs <> [] -> remaining <= total secs ->
     idle secs l = mkLoop ReadingCommand None (calls l ++ [(SPECIAL, data)]))
  /\ (total secs < remaining ->
     idle secs l
       = mkLoop ReadingCommand (Some (remaining - total secs, data)) (calls l)).
Proof.
  intros Hs Hp Hpos. revert l remaining Hs Hp.
  induction Hpos as [|a secs Ha Hpos IH]; intros l remaining Hs Hp.
  - split; [done|]. intros _. cbn. destruct l as [st p c]. cbn in *.
    subst. by rewrite Z.sub_0_r.
  - pose proof (total_nonneg secs Hpos) as Htot.
    rewrite idle_cons, total_cons. unfold step. rewrite Hs, Hp.
    destruct (Z.leb_spec remaining a) as [Hle|Hgt].
    + split; [|lia]. intros _ _. by apply idle_disarmed.
    + destruct (IH (mkLoop ReadingCommand (Some (remaining - a, data)) (calls l))
                  (remaining - a) eq_refl eq_refl) as [Hfire Hwait].
      split.
      * intros _ Hle. apply Hfire; [|lia]. intros ->.
        change (total []) with 0 in Hle. lia.
      * intros Hlt. rewrite Hwait by lia. cbn. do 3 f_equal. lia.
Qed.

End TimeoutFacts.

(** C5.  The timeout special command of a worker: (1) while a command
    executes, elapsing time invokes nothing; (2) once armed with a
    non-negative timeout, an idle loop that has waited at least that long has
    invoked [special(data)] exactly once, the very call an incoming SPECIAL
    command with that payload makes, and is waiting again with nothing armed;
    (3) it does not fire before the timeout; (4) a negative timeout leaves
    nothing armed, so nothing fires; (5) setting a timeout replaces the
    pending one. *)
Theorem timeout_special_command (l : SlaveBase.Loop) :
  (forall secs,
      SlaveBase.loopState l = SlaveBase.ExecutingCommand ->
      SlaveBase.calls (SlaveBase.step (SlaveBase.Elapsed secs) l)
        = SlaveBase.calls l
      /\ SlaveBase.loopState (SlaveBase.step (SlaveBase.Elapsed secs) l)
         = SlaveBase.ExecutingCommand)
  /\ (forall timeout data secs,
        SlaveBase.loopState l = SlaveBase.ReadingCommand ->
        0 <= timeout -> Forall (fun a => 0 <= a) secs -> secs <> [] ->
        timeout <= SlaveBase.total secs ->
        let l' :=
          SlaveBase.idle secs (SlaveBase.setTimeoutSpecialCommand timeout data l) in
        SlaveBase.calls l' = SlaveBase.calls l ++ [(SlaveBase.SPECIAL, data)]
        /\ SlaveBase.calls l'
           = SlaveBase.calls
               (SlaveBase.step (SlaveBase.Incoming (SlaveBase.SPECIAL, data)) l)
        /\ SlaveBase.loopState l' = SlaveBase.ReadingCommand
        /\ SlaveBase.pending l' = None)
  /\ (forall timeout data secs,
        SlaveBase.loopState l = SlaveBase.ReadingCommand ->
        Forall (fun a => 0 <= a) secs -> SlaveBase.total secs < timeout ->
        SlaveBase.calls
          (SlaveBase.idle secs (SlaveBase.setTimeoutSpecialCommand timeout data l))
        = SlaveBase.calls l)
  /\ (forall timeout data secs,
        timeout < 0 ->
        SlaveBase.pending (SlaveBase.setTimeoutSpecialCommand timeout data l) = None
        /\ (SlaveBase.loopState l = SlaveBase.ReadingCommand ->
            SlaveBase.calls
              (SlaveBase.idle secs
                 (SlaveBase.setTimeoutSpecialCommand timeout data l))
            = SlaveBase.calls l))
  /\ (forall t1 d1 t2 d2,
        SlaveBase.setTimeoutSpecialCommand t2 d2
          (SlaveBase.setTimeoutSpecialCommand t1 d1 l)
        = SlaveBase.setTimeoutSpecialCommand t2 d2 l).
Proof.
  split; [|split; [|split; [|split]]].
  - intros secs Hs. unfold SlaveBase.step. by rewrite Hs.
  - intros timeout data secs Hs Ht Hpos Hne Hle l'. subst l'.
    destruct (TimeoutFacts.idle_armed secs
                (SlaveBase.setTimeoutSpecialCommand timeout data l) timeout data)
      as [Hfire _]; [exact Hs | | exact Hpos |].
    { cbn. by destruct (Z.ltb_spec timeout 0); [lia|]. }
    rewrite Hfire by done. cbn.
    unfold SlaveBase.step. by rewrite Hs.
  - intros timeout data secs Hs Hpos Hlt.
    pose proof (TimeoutFacts.total_nonneg secs Hpos) as Htot.
    destruct (TimeoutFacts.idle_armed secs
                (SlaveBase.setTimeoutSpecialCommand timeout data l) timeout data)
      as [_ Hwait]; [exact Hs | | exact Hpos |].
    { cbn. by destruct (Z.ltb_spec timeout 0); [lia|]. }
    by rewrite Hwait.
  - intros timeout data secs Hneg.
    assert (SlaveBase.pending
              (SlaveBase.setTimeoutSpecialCommand timeout data l) = None) as Hp.
    { cbn. by destruct (Z.ltb_spec timeout 0); [|lia]. }
    split; [exact Hp|]. intros Hs.
    by rewrite TimeoutFacts.idle_disarmed.
  - intros t1 d1 t2 d2. reflexivity.
Qed.

Lemma timeout_special_command_witness :
  let l := SlaveBase.mkLoop SlaveBase.ReadingCommand None [] in
  SlaveBase.calls
    (SlaveBase.idle [2; 3; 10] (SlaveBase.setTimeoutSpecialCommand 4 [] l))
  = [] ++ [(SlaveBase.SPECIAL, [])].
Proof.
  intros l.
  destruct (timeout_special_command l) as (_ & Hfire & _).
  apply (Hfire 4 [] [2; 3; 10]).
  - reflexivity.
  - lia.
  - repeat (apply Forall_cons; split; [lia|]). apply Forall_nil_2.
  - discriminate.
  - cbn. lia.
Defined.

(** * Further properties of the stat job *)

Section StatJobRunFacts.
Context {env : KioEnv}.
Import StatJob StatJobApi.

Lemma consume_cons_active (ev : Event) (evs : list Event) (j j' : StatJob)
  (acts : list Action) :
  dispatch ev j = Active j' acts -> consume (ev :: evs) j = consume evs j'.
Proof. intros H. cbn [consume]. by rewrite H. Qed.

Lemma last_filter_cons {A : Type} (f : A -> bool) (x : A) (l : list A) :
  last (List.filter f (x :: l)) =
    match last (List.filter f l) with
    | Some y => Some y
    | None => if f x then Some x else None
    end.
Proof.
  cbn [List.filter]. destruct (f x); [|by destruct (last _)].
  apply last_cons.
Qed.

(** Inserting the two keys of [start] a second time changes nothing. *)
Lemma insert_side_details_twice (a b : string) (m : gmap string string) :
  <["statDetails" := b]> (<["statSide" := a]>
    (<["statDetails" := b]> (<["statSide" := a]> m)))
  = <["statDetails" := b]> (<["statSide" := a]> m).
Proof.
  apply map_eq. intros k.
  destruct (decide (k = "statDetails")) as [->|Hd];
    [by rewrite !lookup_insert_eq|].
  rewrite !(lookup_insert_ne _ "statDetails") by done.
  destruct (decide (k = "statSide")) as [->|Hs];
    [by rewrite !lookup_insert_eq|].
  by rewrite !lookup_insert_ne.
Qed.

(** What a run has done to the job by the time its events, none of them a
    Finished, are consumed. *)
Lemma consume_unfinished (evs : list Event) (j : StatJob) :
  unfinished evs = true ->
  exists j',
    consume evs j = Active j' []
    /\ m_url j' = m_url j /\ m_command j' = m_command j
    /\ m_packedArgs j' = m_packedArgs j /\ m_bSource j' = m_bSource j
    /\ m_details j' = m_details j
    /\ m_redirectionHandlingEnabled j' = m_redirectionHandlingEnabled j
    /\ m_outgoingMetaData j' = m_outgoingMetaData j
    /\ m_incomingMetaData j' = m_incomingMetaData j
    /\ m_redirectionURL j'
       = default (m_redirectionURL j) (last (accepted (m_url j) evs))
    /\ error j'
       = match rejected (m_url j) evs with
         | [] => error j
         | _ :: _ => ERR_ACCESS_DENIED
         end
    /\ errorText j'
       = default (errorText j)
           (toDisplayString <$> last (rejected (m_url j) evs)).
Proof.
  revert j. induction evs as [|ev evs IH]; intros j Hun.
  { exists j. by cbn. }
  cbn in Hun. apply andb_true_iff in Hun as [Hev Hun].
  destruct ev as [entry|u|]; [| |done].
  - destruct (IH (slotStatEntry entry j) Hun) as (j' & Hc & H).
    exists j'. split; [|exact H].
    erewrite consume_cons_active; [exact Hc | reflexivity].
  - unfold accepted, rejected. cbn [redirections].
    rewrite !last_filter_cons. cbn [List.filter].
    destruct (authorizeUrlAction "redirect" (m_url j) u) eqn:Hau; cbn [negb].
    + destruct (IH (set_redirectionURL u j) Hun)
        as (j' & Hc & H1 & H2 & H3 & H4 & H5 & H6 & H7 & H8 & H9 & H10 & H11).
      exists j'. split.
      { erewrite consume_cons_active; [exact Hc|].
        cbn [dispatch]. by rewrite slotRedirection_accepted. }
      cbn in *. unfold accepted, rejected in *.
      rewrite H9, H11. repeat split; try done.
      all: match goal with
           | |- context [match ?o with Some _ => _ | None => _ end] =>
               by destruct o
           end.
    + destruct (IH (setErrorText (toDisplayString u)
                      (setError ERR_ACCESS_DENIED j)) Hun)
        as (j' & Hc & H1 & H2 & H3 & H4 & H5 & H6 & H7 & H8 & H9 & H10 & H11).
      exists j'. split.
      { erewrite consume_cons_active; [exact Hc|].
        cbn [dispatch]. by rewrite slotRedirection_rejected. }
      cbn in *. unfold accepted, rejected in *.
      rewrite H9, H10, H11. repeat split; try done.
      all: match goal with
           | |- context [match ?o with Some _ => _ | None => _ end] =>
               by destruct o
           | |- context [match ?l with [] => _ | _ :: _ => _ end] =>
               by destruct l
           end.
Qed.

End StatJobRunFacts.

(** X1.  Starting a job overwrites exactly the two keys statSide and
    statDetails of its outgoing metadata: every other key the caller has set
    is sent to the worker with the value it had. *)
Theorem start_keeps_other_metadata {env : KioEnv}
  (j : StatJob.StatJob) (key : string) :
  key <> "statSide" -> key <> "statDetails" ->
  exists meta,
    (StatJob.start j).2
      = [StatJob.send_metaData meta;
         StatJob.send_command (StatJob.m_command j) (StatJob.m_packedArgs j)]
    /\ meta !! key = StatJob.m_outgoingMetaData j !! key.
Proof.
  intros Hside Hdet. eexists. split; [reflexivity|]. cbn.
  by rewrite !lookup_insert_ne.
Qed.

Lemma start_keeps_other_metadata_witness :
  exists meta,
    (@StatJob.start Sample.sample_env
       (StatJob.set_outgoingMetaData {["UserAgent" := "kio"]} Sample.job1)).2
      = [StatJob.send_metaData meta;
         StatJob.send_command 69 (StatJob.m_packedArgs Sample.job1)]
    /\ meta !! "UserAgent" = Some "kio".
Proof.
  destruct (@start_keeps_other_metadata Sample.sample_env
              (StatJob.set_outgoingMetaData {["UserAgent" := "kio"]} Sample.job1)
              "UserAgent") as (meta & Hsent & Hkey); [discriminate..|].
  exists meta. split; [exact Hsent|]. rewrite Hkey. reflexivity.
Defined.

(** X2.  Starting a job twice is the same as starting it once: the job that
    is started again (as after a redirection) holds the same outgoing
    metadata and sends the same frames. *)
Theorem start_idempotent {env : KioEnv} (j : StatJob.StatJob) :
  StatJob.start (StatJob.start j).1 = StatJob.start j.
Proof.
  unfold StatJob.start, StatJob.SimpleJobPrivate_start,
    StatJob.set_outgoingMetaData. cbn.
  by rewrite insert_side_details_twice.
Qed.

(** X3.  Within a run, no stat entry and no redirection, accepted or
    rejected, changes the job's URL, command, packed arguments, side,
    details, redirection-handling switch or metadata, and none of them ends
    the run: only Finished does. *)
Theorem run_keeps_request {env : KioEnv}
  (evs : list StatJob.Event) (j : StatJob.StatJob) :
  StatJobApi.unfinished evs = true ->
  exists j',
    StatJob.consume evs j = StatJob.Active j' []
    /\ StatJob.m_url j' = StatJob.m_url j
    /\ StatJob.m_command j' = StatJob.m_command j
    /\ StatJob.m_packedArgs j' = StatJob.m_packedArgs j
    /\ StatJob.m_bSource j' = StatJob.m_bSource j
    /\ StatJob.m_details j' = StatJob.m_details j
    /\ StatJob.m_redirectionHandlingEnabled j'
       = StatJob.m_redirectionHandlingEnabled j
    /\ StatJob.m_outgoingMetaData j' = StatJob.m_outgoingMetaData j
    /\ StatJob.m_incomingMetaData j' = StatJob.m_incomingMetaData j.
Proof.
  intros Hun.
  destruct (consume_unfinished evs j Hun)
    as (j' & Hc & H1 & H2 & H3 & H4 & H5 & H6 & H7 & H8 & _).
  exists j'. repeat split; assumption.
Qed.

Lemma run_keeps_request_witness :
  exists j',
    @StatJob.consume Sample.sample_env
      [@StatJob.EvRedirection Sample.sample_env Sample.remote2;
       @StatJob.EvStatEntry Sample.sample_env Sample.named] Sample.job1
    = StatJob.Active j' []
    /\ StatJob.m_url j' = Sample.remote1.
Proof.
  destruct (@run_keeps_request Sample.sample_env
              [@StatJob.EvRedirection Sample.sample_env Sample.remote2;
               @StatJob.EvStatEntry Sample.sample_env Sample.named]
              Sample.job1 eq_refl) as (j' & Hc & Hu & _).
  exists j'. split; [exact Hc | exact Hu].
Defined.

(** X4.  Of the redirections announced in a run, the one recorded when the
    events before Finished are consumed is the last that the authorization
    check accepts; when it accepts none, the recorded URL is the one the job
    held before. *)
Theorem last_accepted_redirection_recorded {env : KioEnv}
  (evs : list StatJob.Event) (j : StatJob.StatJob) :
  StatJobApi.unfinished evs = true ->
  StatJob.m_redirectionURL (StatJob.jobOf (StatJob.consume evs j))
  = default (StatJob.m_redirectionURL j)
      (last (StatJobApi.accepted (StatJob.m_url j) evs)).
Proof.
  intros Hun.
  destruct (consume_unfinished evs j Hun) as (j' & -> & H).
  cbn. apply H.
Qed.

Lemma last_accepted_redirection_recorded_witness :
  StatJob.m_redirectionURL
    (StatJob.jobOf
       (@StatJob.consume Sample.sample_env
          [@StatJob.EvRedirection Sample.sample_env Sample.remote2;
           @StatJob.EvRedirection Sample.sample_env Sample.remote1;
           @StatJob.EvRedirection Sample.sample_env Sample.secret]
          Sample.job1))
  = Sample.remote1.
Proof.
  exact (@last_accepted_redirection_recorded Sample.sample_env
           [@StatJob.EvRedirection Sample.sample_env Sample.remote2;
            @StatJob.EvRedirection Sample.sample_env Sample.remote1;
            @StatJob.EvRedirection Sample.sample_env Sample.secret]
           Sample.job1 eq_refl).
Defined.

(** X5.  When the events before Finished are consumed, the job's error is
    access-denied if the authorization check rejected any redirection of the
    run, with the display string of the last rejected URL as error text, and
    otherwise error and error text are what they were: a later accepted
    redirection or stat entry does not clear the error. *)
Theorem rejected_redirection_error_kept {env : KioEnv}
  (evs : list StatJob.Event) (j : StatJob.StatJob) :
  StatJobApi.unfinished evs = true ->
  let j' := StatJob.jobOf (StatJob.consume evs j) in
  StatJob.error j'
    = match StatJobApi.rejected (StatJob.m_url j) evs with
      | [] => StatJob.error j
      | _ :: _ => ERR_ACCESS_DENIED
      end
  /\ StatJob.errorText j'
     = default (StatJob.errorText j)
         (toDisplayString <$> last (StatJobApi.rejected (StatJob.m_url j) evs)).
Proof.
  intros Hun.
  destruct (consume_unfinished evs j Hun) as (j' & -> & H).
  cbn. split; apply H.
Qed.

Lemma rejected_redirection_error_kept_witness :
  let j' :=
    StatJob.jobOf
      (@StatJob.consume Sample.sample_env
         [@StatJob.EvRedirection Sample.sample_env Sample.secret;
          @StatJob.EvRedirection Sample.sample_env Sample.remote2;
          @StatJob.EvStatEntry Sample.sample_env Sample.named]
         Sample.job1) in
  StatJob.error j' = 115 /\ StatJob.errorText j' = "file:///etc/secret".
Proof.
  exact (@rejected_redirection_error_kept Sample.sample_env
           [@StatJob.EvRedirection Sample.sample_env Sample.secret;
            @StatJob.EvRedirection Sample.sample_env Sample.remote2;
            @StatJob.EvStatEntry Sample.sample_env Sample.named]
           Sample.job1 eq_refl).
Defined.

(** X6.  A redirection to a URL that is not valid is announced but never
    followed: the authorization check accepting it, the redirection signal is
    emitted and the URL recorded, yet on Finished the job finishes as it is,
    with no permanent-redirection signal, whatever the metadata and the
    redirection-handling switch say. *)
Theorem invalid_redirection_not_followed {env : KioEnv}
  (u : QUrl) (j : StatJob.StatJob) :
  authorizeUrlAction "redirect" (StatJob.m_url j) u = true ->
  isValid u = false ->
  StatJob.dispatch (StatJob.EvRedirection u) j
    = StatJob.Active (StatJob.set_redirectionURL u j)
        [StatJob.emit_redirection u]
  /\ StatJob.consume [StatJob.EvRedirection u; StatJob.EvFinished] j
     = StatJob.Terminated (StatJob.set_redirectionURL u j)
         [StatJob.emit_result].
Proof.
  intros Hau Hv.
  assert (StatJob.dispatch (StatJob.EvRedirection u) j
          = StatJob.Active (StatJob.set_redirectionURL u j)
              [StatJob.emit_redirection u]) as Hd.
  { cbn. by rewrite slotRedirection_accepted. }
  split; [exact Hd|].
  cbn [StatJob.consume]. rewrite Hd. cbn [StatJob.dispatch].
  unfold StatJob.slotFinished. cbn [StatJob.m_redirectionURL StatJob.set_redirectionURL].
  by rewrite Hv, andb_false_r.
Qed.

Lemma invalid_redirection_not_followed_witness :
  @isEmpty SampleJobs.strict_env SampleJobs.hostless = false
  /\ @StatJob.consume SampleJobs.strict_env
       [@StatJob.EvRedirection SampleJobs.strict_env SampleJobs.hostless;
        StatJob.EvFinished] SampleJobs.job_strict
     = StatJob.Terminated
         (@StatJob.set_redirectionURL SampleJobs.strict_env SampleJobs.hostless
            SampleJobs.job_strict)
         [StatJob.emit_result].
Proof.
  split; [reflexivity|].
  apply (@invalid_redirection_not_followed SampleJobs.strict_env
           SampleJobs.hostless SampleJobs.job_strict); reflexivity.
Defined.

(** X7.  On Finished the permanent-redirection signal is emitted exactly when
    a non-empty valid redirection URL is recorded and the incoming metadata
    permanent-redirect is the string "true", whether or not redirection
    handling is enabled; it carries the job's URL from before the redirection
    and the recorded URL.  With redirection handling disabled the job itself
    is left as it is, the recorded URL included. *)
Theorem permanent_redirection_signal {env : KioEnv} (j : StatJob.StatJob) :
  (forall a b,
      StatJob.emit_permanentRedirection a b ∈ (StatJob.slotFinished j).2 <->
      (isEmpty (StatJob.m_redirectionURL j) = false
       /\ isValid (StatJob.m_redirectionURL j) = true
       /\ StatJob.queryMetaData "permanent-redirect" j = "true"
       /\ a = StatJob.m_url j /\ b = StatJob.m_redirectionURL j))
  /\ (StatJob.m_redirectionHandlingEnabled j = false ->
      (StatJob.slotFinished j).1 = j
      /\ StatJob.emit_result ∈ (StatJob.slotFinished j).2
      /\ StatJob.rescheduled ∉ (StatJob.slotFinished j).2).
Proof.
  split.
  - intros a b.
    destruct (slotFinished_actions j) as (final & Hfinal & ->).
    rewrite elem_of_app, list_elem_of_singleton.
    destruct (isEmpty (StatJob.m_redirectionURL j)) eqn:He; cbn [negb andb].
    { rewrite elem_of_nil. split; [|by intros [? _]].
      intros [[] | Heq]; destruct Hfinal as [-> | ->]; discriminate. }
    destruct (isValid (StatJob.m_redirectionURL j)) eqn:Hv; cbn [andb].
    2:{ rewrite elem_of_nil. split; [|by intros (_ & ? & _)].
        intros [[] | Heq]; destruct Hfinal as [-> | ->]; discriminate. }
    destruct (String.eqb_spec (StatJob.queryMetaData "permanent-redirect" j) "true")
      as [Hq|Hq].
    + rewrite list_elem_of_singleton. split.
      * intros [[= -> ->] | Heq]; [done|].
        destruct Hfinal as [-> | ->]; discriminate.
      * intros (_ & _ & _ & -> & ->). by left.
    + rewrite elem_of_nil. split; [|by intros (_ & _ & ? & _)].
      intros [[] | Heq]; destruct Hfinal as [-> | ->]; discriminate.
  - intros Hen. unfold StatJob.slotFinished. rewrite Hen.
    destruct (negb _ && _); cbn; [destruct (String.eqb _ _); cbn|].
    all: split; [reflexivity|split];
      [rewrite ?elem_of_cons; auto
      |rewrite ?not_elem_of_cons; repeat split;
       try discriminate; apply not_elem_of_nil].
Qed.

Lemma permanent_redirection_signal_witness :
  (@StatJob.slotFinished Sample.sample_env SampleJobs.job_unhandled).1
    = SampleJobs.job_unhandled
  /\ StatJob.emit_result
       ∈ (@StatJob.slotFinished Sample.sample_env SampleJobs.job_unhandled).2
  /\ StatJob.rescheduled
       ∉ (@StatJob.slotFinished Sample.sample_env SampleJobs.job_unhandled).2.
Proof.
  destruct (@permanent_redirection_signal Sample.sample_env
              SampleJobs.job_unhandled) as [_ Hoff].
  exact (Hoff eq_refl).
Defined.

(** X8.  A job that is re-armed after a redirection issues the same request
    again, against the new URL only: started, it sends the metadata it sent
    the first time and the same command, with the serialized redirection URL
    as the whole of its packed arguments.  The job is re-armed on Finished
    when a non-empty valid redirection URL is recorded, redirection handling
    is enabled and the redirection-chain limit is not reached. *)
Theorem rearmed_job_request {env : KioEnv} (j : StatJob.StatJob) :
  (forall j' acts,
      StatJob.dispatch StatJob.EvFinished (StatJob.start j).1
        = StatJob.Requeued j' acts ->
      (StatJob.start j').2
      = [StatJob.send_metaData (StatJob.m_outgoingMetaData (StatJob.start j).1);
         StatJob.send_command (StatJob.m_command j)
           (streamUrl (StatJob.m_redirectionURL j))])
  /\ (isEmpty (StatJob.m_redirectionURL j) = false ->
      isValid (StatJob.m_redirectionURL j) = true ->
      StatJob.m_redirectionHandlingEnabled j = true ->
      (StatJob.m_redirectionHops j < redirectionLimit)%nat ->
      exists j' acts,
        StatJob.dispatch StatJob.EvFinished (StatJob.start j).1
          = StatJob.Requeued j' acts).
Proof.
  split.
  - intros j' acts Hd. apply dispatch_requeued in Hd as [-> Hre].
    apply slotFinished_rescheduled in Hre as (-> & _).
    unfold StatJob.start, StatJob.SimpleJobPrivate_start,
      StatJob.set_outgoingMetaData. cbn.
    by rewrite insert_side_details_twice.
  - intros He Hv Hen Hlt. cbn [StatJob.dispatch].
    destruct (slotFinished_restart (StatJob.start j).1) as (sig & -> & Hsig);
      [done..|].
    rewrite existsb_app. cbn [existsb StatJob.is_rescheduled].
    rewrite orb_true_r. by do 2 eexists.
Qed.

Lemma rearmed_job_request_witness :
  exists j' acts,
    @StatJob.dispatch Sample.sample_env StatJob.EvFinished
      (StatJob.start SampleJobs.job_redirected).1
      = StatJob.Requeued j' acts
    /\ (StatJob.start j').2
       = [StatJob.send_metaData
            (StatJob.m_outgoingMetaData (StatJob.start SampleJobs.job_redirected).1);
          StatJob.send_command 69 (@streamUrl Sample.sample_env Sample.remote2)].
Proof.
  destruct (@rearmed_job_request Sample.sample_env SampleJobs.job_redirected)
    as [Hrequest Hrearmed].
  destruct Hrearmed as (j' & acts & Hd); [reflexivity..|cbn; lia|].
  exists j', acts. split; [exact Hd|]. exact (Hrequest j' acts Hd).
Defined.

Section StatJobChainFacts.
Context {env : KioEnv}.
Import StatJob.

(** The run in which the redirection is rejected: the job finishes there. *)
Lemma consume_rejected_hop (u : QUrl) (j : StatJob) :
  authorizeUrlAction "redirect" (m_url j) u = false ->
  isEmpty (m_redirectionURL j) = true ->
  consume [EvRedirection u; EvFinished] (start j).1
  = Terminated
      (setErrorText (toDisplayString u) (setError ERR_ACCESS_DENIED (start j).1))
      [emit_result].
Proof.
  intros Hau He. cbn [consume dispatch].
  rewrite slotRedirection_rejected by exact Hau.
  by rewrite slotFinished_no_redirection.
Qed.

Lemma runJob_chain_rejected (entry : UDSEntry) (bad : QUrl)
  (tail good done : list QUrl) (j : StatJob) :
  followable (m_url j) good = true ->
  authorizeUrlAction "redirect" (default (m_url j) (last good)) bad = false ->
  isEmpty (m_redirectionURL j) = true ->
  m_redirectionHandlingEnabled j = true ->
  (m_redirectionHops j + length good <= redirectionLimit)%nat ->
  exists j',
    runJob (S (length good)) (length done)
      (chainWorker (done ++ good ++ bad :: tail) entry) j
      = Completed j' (length (done ++ good))
    /\ error j' = ERR_ACCESS_DENIED
    /\ errorText j' = toDisplayString bad
    /\ m_url j' = default (m_url j) (last good).
Proof.
  revert done j.
  induction good as [|u good IH]; intros done j Hf Hbad He Hen Hlim.
  - cbn [length]. rewrite runJob_S. unfold chainWorker.
    cbn [app]. rewrite lookup_app_r, Nat.sub_diag by lia.
    cbn [lookup list_lookup]. cbn in Hbad.
    rewrite consume_rejected_hop by done.
    eexists. split; [by rewrite app_nil_r|]. by cbn.
  - cbn in Hf. repeat (apply andb_true_iff in Hf as [Hf ?]).
    match goal with H : negb _ = true |- _ => apply negb_true_iff in H end.
    cbn [length] in Hlim.
    destruct (consume_hop u j)
      as (j' & acts & Hc & Hu & He' & Hen' & Herr & Hhops); [done..|lia|].
    cbn [length]. rewrite runJob_S. unfold chainWorker at 1.
    rewrite lookup_app_r, Nat.sub_diag by lia. cbn [app lookup list_lookup].
    rewrite Hc.
    assert (default (m_url j) (last (u :: good)) = default u (last good)) as Hl.
    { rewrite last_cons. by destruct (last good). }
    rewrite Hl in Hbad.
    destruct (IH (done ++ [u]) j') as (j'' & Hrun & Ha & Hb & Hc');
      [by rewrite Hu | by rewrite Hu | done..|lia|].
    rewrite <- !app_assoc, length_app, Nat.add_1_r in Hrun.
    cbn [app] in Hrun.
    exists j''. split.
    { rewrite Hrun. f_equal; rewrite !length_app; cbn [length]; lia. }
    by rewrite Ha, Hb, Hc', Hu, Hl.
Qed.

End StatJobChainFacts.

(** X9.  Within the redirection-chain limit, a chain of redirections stops
    at the first hop that the authorization check rejects: the job follows
    the hops before it, and in the run that announces the rejected hop it
    finishes, with the access-denied error and the rejected URL as error
    text, still targeting the URL it had reached. *)
Theorem chain_stops_at_rejected_hop {env : KioEnv}
  (url : QUrl) (side : StatJob.StatSide) (details : Z)
  (good : list QUrl) (bad : QUrl) (tail : list QUrl) (entry : UDSEntry) :
  StatJob.followable url good = true ->
  (length good <= redirectionLimit)%nat ->
  authorizeUrlAction "redirect" (default url (last good)) bad = false ->
  exists j',
    StatJob.runJob (S (length good)) 0
      (StatJob.chainWorker (good ++ bad :: tail) entry)
      (StatJob.statDetails url side details)
    = StatJob.Completed j' (length good)
    /\ StatJob.error j' = ERR_ACCESS_DENIED
    /\ StatJob.errorText j' = toDisplayString bad
    /\ StatJob.m_url j' = default url (last good).
Proof.
  intros Hf Hlen Hbad.
  exact (runJob_chain_rejected entry bad tail good []
           (StatJob.statDetails url side details) Hf Hbad
           QUrl_null_isEmpty eq_refl Hlen).
Qed.

Lemma chain_stops_at_rejected_hop_witness :
  exists j',
    @StatJob.runJob Sample.sample_env 2 0
      (@StatJob.chainWorker Sample.sample_env
         ([Sample.remote2] ++ Sample.secret :: [Sample.remote1]) Sample.named)
      Sample.job1
    = StatJob.Completed j' 1
    /\ StatJob.error j' = 115
    /\ StatJob.errorText j' = "file:///etc/secret"
    /\ StatJob.m_url j' = Sample.remote2.
Proof.
  apply (@chain_stops_at_rejected_hop Sample.sample_env Sample.remote1
           StatJob.SourceSide 1 [Sample.remote2] Sample.secret
           [Sample.remote1] Sample.named);
    [reflexivity | cbn; lia | reflexivity].
Defined.

(** X10.  The legacy integer details of the deprecated [KIO::stat] overloads
    matter only through their position relative to 0, 1, 2 and 3: a value
    below 0 creates the same job as 0 and a value above 3 the same job as 3.
    Started, such a job sends statSide "source" or "dest" as [sideIsSource]
    says and statDetails as the decimal rendering of the converted flags,
    then STAT with the serialized URL; and [KIO::stat(url)] asks for the
    source side with the default details. *)
Theorem legacy_stat_request {env : KioEnv} {bits : StatDetailBits}
  (url : QUrl) (sideIsSource : bool) (details : Z) :
  StatJobApi.stat_bool_short url sideIsSource details
    = StatJobApi.stat_bool_short url sideIsSource (Z.max 0 (Z.min 3 details))
  /\ (exists meta : gmap string string,
        (StatJob.start (StatJobApi.stat_bool_short url sideIsSource details)).2
          = [StatJob.send_metaData meta;
             StatJob.send_command CMD_STAT (streamUrl url)]
        /\ meta !! "statSide" = Some (if sideIsSource then "source" else "dest")
        /\ meta !! "statDetails"
           = Some (pretty (Details.detailsToStatDetails details)))
  /\ StatJobApi.stat_side_short url
       (if sideIsSource then StatJob.SourceSide else StatJob.DestinationSide)
       details
     = StatJobApi.stat_bool_short url sideIsSource details
  /\ (exists meta : gmap string string,
        (StatJob.start (StatJobApi.stat url)).2
          = [StatJob.send_metaData meta;
             StatJob.send_command CMD_STAT (streamUrl url)]
        /\ meta !! "statSide" = Some "source"
        /\ meta !! "statDetails" = Some (pretty StatDefaultDetails)).
Proof.
  assert (Details.detailsToStatDetails details
          = Details.detailsToStatDetails (Z.max 0 (Z.min 3 details))) as Hclamp.
  { unfold Details.detailsToStatDetails.
    destruct (Z.ltb_spec 0 details), (Z.ltb_spec 1 details),
      (Z.ltb_spec 2 details),
      (Z.ltb_spec 0 (Z.max 0 (Z.min 3 details))),
      (Z.ltb_spec 1 (Z.max 0 (Z.min 3 details))),
      (Z.ltb_spec 2 (Z.max 0 (Z.min 3 details))); (reflexivity || lia). }
  split; [|split; [|split]].
  - unfold StatJobApi.stat_bool_short, StatJobApi.setDetails_short.
    by rewrite <- Hclamp.
  - eexists. split; [reflexivity|]. cbn. split.
    + rewrite lookup_insert_ne by done. rewrite lookup_insert_eq.
      by destruct sideIsSource.
    + by rewrite lookup_insert_eq.
  - reflexivity.
  - eexists. split; [reflexivity|]. cbn. split.
    + rewrite lookup_insert_ne by done. by rewrite lookup_insert_eq.
    + by rewrite lookup_insert_eq.
Qed.

(** X11.  [KIO::mostLocalUrl] short-circuits a URL that is a local file, or
    whose protocol is not of class ":local": the job is taken from the
    scheduler and its [slotFinished] is queued, which finishes the job as it
    is, without any worker; the job's [mostLocalUrl()] is then the URL that
    was passed in (for a URL that is not a local file, as long as an empty
    stat entry has no local path).  Any other URL is left to a worker. *)
Theorem mostLocalUrl_job_shortcut {env : KioEnv}
  (scheme : QUrl -> string) (protocolClass : string -> string) (url : QUrl) :
  let job := (StatJobApi.mostLocalUrl_job scheme protocolClass url).1 in
  let arranged := (StatJobApi.mostLocalUrl_job scheme protocolClass url).2 in
  (isLocalFile url = true \/ protocolClass (scheme url) <> ":local" ->
     arranged = [StatJobApi.singleShot_slotFinished;
                 StatJobApi.Scheduler_cancelJob]
     /\ StatJob.slotFinished job = (job, [StatJob.emit_result]))
  /\ (isLocalFile url = true -> StatJob.mostLocalUrl job = url)
  /\ (stringValue UDSEntry_null UDS_LOCAL_PATH = "" ->
      StatJob.mostLocalUrl job = url)
  /\ (isLocalFile url = false -> protocolClass (scheme url) = ":local" ->
      arranged = []).
Proof.
  intros job arranged. subst job arranged.
  unfold StatJobApi.mostLocalUrl_job.
  split; [|split; [|split]].
  - intros Hshort.
    assert (isLocalFile url
            || negb (String.eqb (protocolClass (scheme url)) ":local") = true)
      as ->.
    { destruct Hshort as [->|Hne]; [done|].
      apply String.eqb_neq in Hne as ->. apply orb_true_r. }
    cbn [fst snd]. split; [reflexivity|].
    apply slotFinished_no_redirection. apply QUrl_null_isEmpty.
  - intros Hloc. destruct (_ || _); cbn [fst]; unfold StatJob.mostLocalUrl;
      cbn; by rewrite Hloc.
  - intros Hnull. destruct (_ || _); cbn [fst]; unfold StatJob.mostLocalUrl;
      cbn; rewrite Hnull; by destruct (isLocalFile url).
  - intros Hloc Hclass. rewrite Hloc, Hclass. reflexivity.
Qed.

Lemma mostLocalUrl_job_shortcut_witness :
  (@StatJobApi.mostLocalUrl_job Sample.sample_env SampleJobs.url_scheme
     SampleJobs.protocolClass Sample.remote1).2
    = [StatJobApi.singleShot_slotFinished; StatJobApi.Scheduler_cancelJob]
  /\ StatJob.slotFinished
       (@StatJobApi.mostLocalUrl_job Sample.sample_env SampleJobs.url_scheme
          SampleJobs.protocolClass Sample.remote1).1
     = ((@StatJobApi.mostLocalUrl_job Sample.sample_env SampleJobs.url_scheme
           SampleJobs.protocolClass Sample.remote1).1,
        [StatJob.emit_result]).
Proof.
  destruct (@mostLocalUrl_job_shortcut Sample.sample_env SampleJobs.url_scheme
              SampleJobs.protocolClass Sample.remote1) as [Hshort _].
  apply Hshort. right. discriminate.
Defined.

(** * The certificate box *)

Module KSslCertificateBoxFacts.
Import KSslCertificateBox.
Section Box.
Variable QSslCertificate : Type.
Variable subjectInfo : QSslCertificate -> SubjectInfo -> list string.
Variable issuerInfo : QSslCertificate -> SubjectInfo -> list string.
Variable Subject : Z.
Variable Issuer : Z.

Lemma new_plain (form : Ui) : plain (KSslCertificateBox_new form).
Proof.
  unfold plain, labels, KSslCertificateBox_new. cbn.
  repeat (apply Forall_cons; split; [reflexivity|]).
  apply Forall_fmap, Forall_true. done.
Qed.

Lemma perform_plain (c : Call QSslCertificate) (ui : Ui) :
  plain ui -> plain (perform QSslCertificate subjectInfo issuerInfo Subject Issuer c ui).
Proof.
  unfold plain, labels. intros H.
  destruct c as [cert party|]; cbn [perform].
  - unfold setCertificate.
    destruct (party =? Subject); [|destruct (party =? Issuer)]; [| |exact H];
      cbn in *; repeat (apply Forall_cons in H as [? H]);
      repeat (apply Forall_cons; split; [done|]); exact H.
  - unfold clear. cbn in *. repeat (apply Forall_cons in H as [? H]).
    repeat (apply Forall_cons; split; [done|]). exact H.
Qed.

Lemma perform_otherLabels (c : Call QSslCertificate) (ui : Ui) :
  otherLabels (perform QSslCertificate subjectInfo issuerInfo Subject Issuer c ui)
  = otherLabels ui.
Proof.
  destruct c as [cert party|]; cbn [perform]; [|done].
  unfold setCertificate.
  by destruct (party =? Subject); [|destruct (party =? Issuer)].
Qed.

End Box.
End KSslCertificateBoxFacts.

(** X12.  Every label of a certificate box shows its text as plain text,
    from construction on and after any sequence of [setCertificate] and
    [clear] calls: markup in a certificate entry is never interpreted. *)
Theorem box_labels_stay_plain (QSslCertificate : Type)
  (subjectInfo issuerInfo : QSslCertificate -> KSslCertificateBox.SubjectInfo
                            -> list string)
  (Subject Issuer : Z) (form : KSslCertificateBox.Ui)
  (calls : list (KSslCertificateBox.Call QSslCertificate)) :
  KSslCertificateBox.plain
    (KSslCertificateBox.performAll QSslCertificate subjectInfo issuerInfo
       Subject Issuer calls (KSslCertificateBox.KSslCertificateBox_new form)).
Proof.
  pose proof (KSslCertificateBoxFacts.new_plain form) as Hplain.
  revert Hplain.
  generalize (KSslCertificateBox.KSslCertificateBox_new form) as ui.
  induction calls as [|c calls IH]; intros ui Hplain; [exact Hplain|].
  cbn. apply IH. by apply KSslCertificateBoxFacts.perform_plain.
Qed.

(** X13.  [setCertificate] for the subject (for the issuer) replaces the
    texts of all six value labels by the subject's (the issuer's) entries,
    each list of values joined with ", ", so nothing of what was shown before
    remains; for any other party value it changes nothing; [clear] empties
    the six value labels; and no call touches the other labels of the
    form. *)
Theorem setCertificate_replaces_values (QSslCertificate : Type)
  (subjectInfo issuerInfo : QSslCertificate -> KSslCertificateBox.SubjectInfo
                            -> list string)
  (Subject Issuer : Z) (cert : QSslCertificate) (ui : KSslCertificateBox.Ui) :
  Subject <> Issuer ->
  KSslCertificateBox.values
    (KSslCertificateBox.setCertificate QSslCertificate subjectInfo issuerInfo
       Subject Issuer cert Subject ui)
    = (fun i => String.concat ", " (subjectInfo cert i))
        <$> KSslCertificateBox.fields
  /\ KSslCertificateBox.values
       (KSslCertificateBox.setCertificate QSslCertificate subjectInfo issuerInfo
          Subject Issuer cert Issuer ui)
     = (fun i => String.concat ", " (issuerInfo cert i))
         <$> KSslCertificateBox.fields
  /\ (forall party, party <> Subject -> party <> Issuer ->
        KSslCertificateBox.setCertificate QSslCertificate subjectInfo issuerInfo
          Subject Issuer cert party ui = ui)
  /\ KSslCertificateBox.values (KSslCertificateBox.clear ui)
     = replicate 6 ""
  /\ (forall calls,
        KSslCertificateBox.otherLabels
          (KSslCertificateBox.performAll QSslCertificate subjectInfo issuerInfo
             Subject Issuer calls ui)
        = KSslCertificateBox.otherLabels ui).
Proof.
  intros Hne. unfold KSslCertificateBox.setCertificate.
  rewrite Z.eqb_refl.
  assert ((Issuer =? Subject) = false) as -> by (apply Z.eqb_neq; congruence).
  rewrite Z.eqb_refl.
  split; [reflexivity|]. split; [reflexivity|].
  split; [|split; [reflexivity|]].
  - intros party Hs Hi.
    apply Z.eqb_neq in Hs as ->. by apply Z.eqb_neq in Hi as ->.
  - intros calls. revert ui.
    induction calls as [|c calls IH]; intros ui; [done|].
    etransitivity; [exact (IH _)|].
    apply KSslCertificateBoxFacts.perform_otherLabels.
Qed.

Lemma setCertificate_replaces_values_witness :
  KSslCertificateBox.values
    (KSslCertificateBox.setCertificate KSslCertificateBox.SampleCert
       KSslCertificateBox.cert_subject KSslCertificateBox.cert_issuer 0 1
       KSslCertificateBox.sample_cert 0
       (KSslCertificateBox.KSslCertificateBox_new KSslCertificateBox.sample_form))
  = ["<b>example.org</b>"; "Example, Example Ltd"; ""; ""; ""; ""].
Proof.
  destruct (setCertificate_replaces_values KSslCertificateBox.SampleCert
              KSslCertificateBox.cert_subject KSslCertificateBox.cert_issuer
              0 1 KSslCertificateBox.sample_cert
              (KSslCertificateBox.KSslCertificateBox_new
                 KSslCertificateBox.sample_form)) as [Hsubject _];
    [discriminate|].
  exact Hsubject.
Defined.

(** X14.  The legacy conversion never sets a bit other than those of the six
    flags Basic, User, Time, ResolveSymlink, Acl and Inode, whatever integer
    it is given. *)
Theorem detailsToStatDetails_no_other_bit {bits : StatDetailBits}
  (details b : Z) :
  Details.distinct_bits -> 0 <= b ->
  Z.testbit (Details.detailsToStatDetails details) b = true ->
  b ∈ [bitBasic; bitUser; bitTime; bitResolveSymlink; bitAcl; bitInode].
Proof.
  intros Hd Hb.
  rewrite DetailsFacts.detailsToStatDetails_testbit by assumption.
  rewrite !elem_of_cons.
  destruct (Z.eqb_spec bitBasic b), (Z.eqb_spec bitUser b),
    (Z.eqb_spec bitTime b), (Z.eqb_spec bitResolveSymlink b),
    (Z.eqb_spec bitAcl b), (Z.eqb_spec bitInode b); auto 7.
  rewrite !andb_false_r. discriminate.
Qed.

Lemma detailsToStatDetails_no_other_bit_witness :
  (4 : Z) ∈ [@bitBasic Details.kio_bits; @bitUser Details.kio_bits;
             @bitTime Details.kio_bits; @bitResolveSymlink Details.kio_bits;
             @bitAcl Details.kio_bits; @bitInode Details.kio_bits].
Proof.
  apply (@detailsToStatDetails_no_other_bit Details.kio_bits 2 4).
  - split.
    + apply (bool_decide_unpack _). vm_compute. exact I.
    + repeat (apply Forall_cons; split; [cbn; lia|]). apply Forall_nil_2.
  - lia.
  - reflexivity.
Defined.
